(** * httpcompression: the middleware builder of [adapter.go]

    A shallow embedding of [Adapter], [addVaryHeader], [DefaultAdapter] and
    the functional options of [adapter.go], together with the parts of Go's
    [net/http] and [net/textproto] they call, and the properties of the
    specification that are about them. *)

From Stdlib Require Import ZArith NArith QArith_base Ascii String List Bool Lia.
From stdpp Require Import gmap strings list fin_maps pretty.

Close Scope Q_scope.
Open Scope string_scope.

(** ** Go's [net/textproto]: canonical header keys

    Go strings are byte strings; [string] is a list of 8-bit [ascii]. *)
Module Textproto.

Definition byte (c : ascii) : N := N_of_ascii c.

(** [const toLower = 'a' - 'A'] *)
Definition toLower : N := 32.

Definition isLower (c : ascii) : bool := (97 <=? byte c)%N && (byte c <=? 122)%N.
Definition isUpper (c : ascii) : bool := (65 <=? byte c)%N && (byte c <=? 90)%N.

(** The 128-bit bitmap of [validHeaderFieldByte]: digits, letters and the
    token punctuation of RFC 7230. *)
Definition mask : N :=
  fold_right N.lor 0%N
    [ N.shiftl (N.ones 10) 48; N.shiftl (N.ones 26) 97; N.shiftl (N.ones 26) 65;
      N.shiftl 1 33; N.shiftl 1 35; N.shiftl 1 36; N.shiftl 1 37; N.shiftl 1 38;
      N.shiftl 1 39; N.shiftl 1 42; N.shiftl 1 43; N.shiftl 1 45; N.shiftl 1 46;
      N.shiftl 1 94; N.shiftl 1 95; N.shiftl 1 96; N.shiftl 1 124; N.shiftl 1 126 ]%N.

(** [validHeaderFieldByte]: the two 64-bit halves of the Go test select bit
    [c] of [mask]; for [c >= 128] both shifts are zero, as is the bit here. *)
Definition validHeaderFieldByte (c : ascii) : bool := N.testbit mask (byte c).

(** One round of the second loop of [canonicalMIMEHeaderKey]: what the byte
    [c] becomes. *)
Definition stepByte (upper : bool) (c : ascii) : ascii :=
  if upper && isLower c then ascii_of_N (byte c - toLower)
  else if negb upper && isUpper c then ascii_of_N (byte c + toLower)
  else c.

(** The second loop of [canonicalMIMEHeaderKey]: first letter upper case and
    upper case after each dash, everything else lower case. *)
Fixpoint canonicalize (upper : bool) (a : string) : string :=
  match a with
  | EmptyString => EmptyString
  | String c a' =>
      let c' := stepByte upper c in
      String c' (canonicalize (Ascii.eqb c' "-") a')
  end.

(** The first loop of [canonicalMIMEHeaderKey]: [None] when a byte that is
    neither valid nor a space is met, otherwise the [noCanon] flag. *)
Fixpoint looksLikeKey (noCanon : bool) (a : string) : option bool :=
  match a with
  | EmptyString => Some noCanon
  | String c a' =>
      if validHeaderFieldByte c then looksLikeKey noCanon a'
      else if Ascii.eqb c " " then looksLikeKey true a'
      else None
  end.

(** [canonicalMIMEHeaderKey]; the final lookup in [commonHeader] only interns
    the result and is left out. *)
Definition canonicalMIMEHeaderKey (a : string) : string :=
  match looksLikeKey false a with
  | None => a
  | Some true => a
  | Some false => canonicalize true a
  end.

(** The quick check of [CanonicalMIMEHeaderKey] over the bytes [rest] that
    are still to be read of the key [s]. *)
Fixpoint quickCheck (s : string) (upper : bool) (rest : string) : string :=
  match rest with
  | EmptyString => s
  | String c rest' =>
      if negb (validHeaderFieldByte c) then s
      else if upper && isLower c then canonicalMIMEHeaderKey s
      else if negb upper && isUpper c then canonicalMIMEHeaderKey s
      else quickCheck s (Ascii.eqb c "-") rest'
  end.

Definition CanonicalMIMEHeaderKey (s : string) : string := quickCheck s true s.

(** ASCII lower-casing, used to state what "case-insensitive" means. *)
Definition lowerByte (c : ascii) : ascii :=
  if isUpper c then ascii_of_N (byte c + toLower) else c.

Fixpoint lowerString (s : string) : string :=
  match s with
  | EmptyString => EmptyString
  | String c s' => String (lowerByte c) (lowerString s')
  end.

Fixpoint allValid (s : string) : bool :=
  match s with
  | EmptyString => true
  | String c s' => validHeaderFieldByte c && allValid s'
  end.

End Textproto.

(** [http.CanonicalHeaderKey] is [textproto.CanonicalMIMEHeaderKey]. *)
Definition CanonicalHeaderKey (s : string) : string := Textproto.CanonicalMIMEHeaderKey s.


(** ** Go's [net/http]: the header map

    [http.Header] is [map[string][]string]; every method canonicalises the
    key it is given. *)
Abbreviation Header := (gmap string (list string)).

Definition Header_Values (h : Header) (key : string) : list string :=
  default [] (h !! CanonicalHeaderKey key).

Definition Header_Get (h : Header) (key : string) : string :=
  match Header_Values h key with
  | [] => ""
  | v :: _ => v
  end.

Definition Header_Add (h : Header) (key value : string) : Header :=
  <[CanonicalHeaderKey key := (Header_Values h key ++ [value])%list]> h.

Definition Header_Del (h : Header) (key : string) : Header :=
  delete (CanonicalHeaderKey key) h.

(** ** [adapter.go]: constants *)
Definition vary : string := "Vary".
Definition acceptEncoding : string := "Accept-Encoding".
Definition acceptRanges : string := "Accept-Ranges".
Definition contentEncoding : string := "Content-Encoding".
Definition contentType : string := "Content-Type".
Definition contentLength : string := "Content-Length".
Definition _range : string := "Range".
Definition gzipEncoding : string := "gzip".

(** Modelled from the spec: the constants [zlib.Encoding], [brotli.Encoding]
    and [zstd.Encoding] are declared in the contrib packages; the data model
    names the codings "deflate", "br" and "zstd". *)
Definition zlib_Encoding : string := "deflate".
Definition brotli_Encoding : string := "br".
Definition zstd_Encoding : string := "zstd".

(** [type codings map[string]float64]: a quality is only ever compared, so a
    rational stands for the float. *)
Abbreviation codings := (gmap string Q).

Definition DefaultMinSize : Z := 200.

(** [gzip.DefaultCompression] of Go's [compress/gzip]. *)
Definition gzip_DefaultCompression : Z := (-1).

(** [error] values are their messages. *)
Definition error : Type := string.

(** [addVaryHeader] *)
Definition addVaryHeader (h : Header) (value : string) : Header :=
  let value := CanonicalHeaderKey value in
  if existsb (fun v => String.eqb (CanonicalHeaderKey v) value) (Header_Values h vary)
  then h
  else Header_Add h vary value.

(** Number of [Vary] values that name [Accept-Encoding] up to canonical case. *)
Definition varyCount (h : Header) : nat :=
  length (List.filter (fun v => String.eqb (CanonicalHeaderKey v) acceptEncoding)
            (Header_Values h vary)).

(** ** What lies outside [adapter.go]

    The types whose declarations are in other files or packages, and the
    compressor constructors of the contrib packages. *)
Class Platform := {
  CompressorProvider : Type;   (* the codec factories *)
  parsedContentType : Type;    (* entries of the content-type filter *)
  CompressingWriter : Type;    (* a compressor created for one response *)
  ResponseWriter : Type;       (* the writers the HTTP server hands in *)
  App : Type;                  (* what handlers and sinks touch besides headers *)
  PanicValue : Type;
  zlib_New : Z -> CompressorProvider + error;
  cgzip_New : Z -> CompressorProvider + error;
  brotli_New : Z -> CompressorProvider + error;
  zstd_New : CompressorProvider + error;
  zlib_DefaultCompression : Z;
  brotli_DefaultCompression : Z;
  isCloseNotifier : ResponseWriter -> bool;   (* [w.(http.CloseNotifier)] *)
}.

Section Configuration.
Context `{Platform}.

(** Modelled from the spec: [PreferType] is declared outside [adapter.go];
    the policy is either server preference (the default, and the zero
    value) or client preference. *)
Inductive PreferType := PreferServer | PreferClient.

Record comp := mkComp {
  comp_comp : CompressorProvider;
  comp_priority : Z;
}.

Record config := mkConfig {
  minSize : Z;
  contentTypes : list parsedContentType;
  blacklist : bool;
  prefer : PreferType;
  compressor : gmap string comp;
}.

Definition set_minSize (n : Z) (c : config) : config :=
  mkConfig n (contentTypes c) (blacklist c) (prefer c) (compressor c).

Definition set_compressor (m : gmap string comp) (c : config) : config :=
  mkConfig (minSize c) (contentTypes c) (blacklist c) (prefer c) m.

(** [type Option func(c *config) error]: the configuration the option leaves
    behind, and its error. *)
Definition Option : Type := config -> config * option error.

Definition MinSize (size : Z) : Option := fun c =>
  if (size <? 0)%Z
  then (c, Some ("minimum size can not be negative: " ++ pretty size))
  else (set_minSize size c, None).

Definition errorOption (err : error) : Option := fun c => (c, Some err).

(** Modelled from the spec: [Compressor] is declared outside [adapter.go];
    "register(name, provider, priority)", where a "duplicate coding
    registration overwrites by later-wins". *)
Definition Compressor (contentEncoding : string) (priority : Z)
    (compressor_ : CompressorProvider) : Option := fun c =>
  (set_compressor (<[contentEncoding := mkComp compressor_ priority]> (compressor c)) c, None).

Definition DeflateCompressor (g : CompressorProvider) : Option :=
  Compressor zlib_Encoding (-300) g.

Definition GzipCompressor (g : CompressorProvider) : Option :=
  Compressor gzipEncoding (-200) g.

Definition BrotliCompressor (b : CompressorProvider) : Option :=
  Compressor brotli_Encoding (-100) b.

Definition ZstandardCompressor (b : CompressorProvider) : Option :=
  Compressor zstd_Encoding (-50) b.

Definition DeflateCompressionLevel (level : Z) : Option :=
  match zlib_New level with
  | inr err => errorOption err
  | inl c => DeflateCompressor c
  end.

Definition NewDefaultGzipCompressor (level : Z) : CompressorProvider + error :=
  cgzip_New level.

Definition GzipCompressionLevel (level : Z) : Option :=
  match NewDefaultGzipCompressor level with
  | inr err => errorOption err
  | inl c => GzipCompressor c
  end.

Definition BrotliCompressionLevel (level : Z) : Option :=
  match brotli_New level with
  | inr err => errorOption err
  | inl c => BrotliCompressor c
  end.

Definition defaultZstandardCompressor : Option :=
  match zstd_New with
  | inr err => errorOption ("initializing zstd compressor: " ++ err)
  | inl zstdComp => ZstandardCompressor zstdComp
  end.

(** The configuration [Adapter] starts from (lines 48-51). *)
Definition initialConfig : config := mkConfig 0 [] false PreferServer ∅.

(** The loop of [Adapter] over its options (lines 52-57). *)
Fixpoint applyOptions (opts : list Option) (c : config) : config + error :=
  match opts with
  | [] => inl c
  | o :: opts' =>
      match o c with
      | (_, Some err) => inr err
      | (c', None) => applyOptions opts' c'
      end
  end.

(** The configuration the closure returned by [Adapter] captures. *)
Definition Adapter_config (opts : list Option) : config + error :=
  applyOptions opts initialConfig.

(** The [defaults] of [DefaultAdapter]. *)
Definition defaults : list Option :=
  [ DeflateCompressionLevel zlib_DefaultCompression;
    GzipCompressionLevel gzip_DefaultCompression;
    BrotliCompressionLevel brotli_DefaultCompression;
    defaultZstandardCompressor;
    MinSize DefaultMinSize ].

Definition DefaultAdapter_config (opts : list Option) : config + error :=
  Adapter_config (defaults ++ opts).

(** An option that leaves the minimum size as it finds it: any option that
    is not a [MinSize]. *)
Definition keepsMinSize (o : Option) : Prop := ∀ c, minSize (o c).1 = minSize c.

(** An option that leaves the registered codings as it finds them. *)
Definition keepsCompressor (o : Option) : Prop :=
  ∀ c, compressor (o c).1 = compressor c.

End Configuration.

(** ** Negotiation

    [parseEncodings] and [acceptedCompression] are called by the closure of
    [Adapter] but declared in another file. *)
Module Negotiation.
Import Textproto.

Fixpoint splitOn (sep : ascii) (s : string) : list string :=
  match s with
  | EmptyString => [EmptyString]
  | String c s' =>
      if Ascii.eqb c sep then EmptyString :: splitOn sep s'
      else match splitOn sep s' with
           | [] => [String c EmptyString]
           | t :: ts => String c t :: ts
           end
  end.

Definition isSpace (c : ascii) : bool := Ascii.eqb c " " || Ascii.eqb c "009".

Fixpoint trimLeft (s : string) : string :=
  match s with
  | String c s' => if isSpace c then trimLeft s' else s
  | EmptyString => EmptyString
  end.

Fixpoint trimRight (s : string) : string :=
  match s with
  | EmptyString => EmptyString
  | String c s' =>
      let t := trimRight s' in
      if isSpace c && String.eqb t EmptyString then EmptyString else String c t
  end.

Definition trim (s : string) : string := trimRight (trimLeft s).

Fixpoint readDigits (acc : N) (s : string) : option N :=
  match s with
  | EmptyString => Some acc
  | String c s' =>
      if (48 <=? byte c)%N && (byte c <=? 57)%N
      then readDigits (10 * acc + (byte c - 48))%N s'
      else None
  end.

Definition readNumber (s : string) : option N :=
  if String.eqb s EmptyString then None else readDigits 0 s.

Definition Qpositive (q : Q) : bool := (0 <? Qnum q)%Z.

(** A quality lies in [0,1]. *)
Definition clampQuality (q : Q) : Q := if Qle_bool q 1 then q else 1%Q.

(** Modelled from the spec: the quality of a [;q=<value>] suffix, a decimal
    number; "malformed quality values are treated as 1.0". *)
Definition parseQuality (s : string) : Q :=
  match splitOn "." s with
  | [i] =>
      match readNumber i with
      | Some n => clampQuality (Z.of_N n # 1)
      | None => 1%Q
      end
  | [i; f] =>
      match readNumber i, readDigits 0 f with
      | Some n, Some m =>
          let scale := (10 ^ Z.of_nat (String.length f))%Z in
          clampQuality ((Z.of_N n * scale + Z.of_N m) # Z.to_pos scale)
      | _, _ => 1%Q
      end
  | _ => 1%Q
  end.

Fixpoint qualityOf (params : list string) : Q :=
  match params with
  | [] => 1%Q
  | p :: ps =>
      match trim p with
      | String "q" (String "=" v) => parseQuality v
      | _ => qualityOf ps
      end
  end.

(** Modelled from the spec: one entry of the header, a coding name (compared
    case-insensitively, so kept in lower case) with its quality, "default
    1.0 if unspecified". *)
Definition parseCoding (tok : string) : option (string * Q) :=
  match splitOn ";" tok with
  | [] => None
  | name :: params =>
      let name := lowerString (trim name) in
      if String.eqb name EmptyString then None else Some (name, qualityOf params)
  end.

(** Modelled from the spec: [parseEncodings] is declared outside
    [adapter.go]; "comma-separated tokens, each optionally suffixed by
    [;q=<value>]". *)
Definition parseEncodings (s : string) : codings :=
  fold_left (fun m tok =>
               match parseCoding tok with
               | Some (name, q) => <[name := q]> m
               | None => m
               end)
            (splitOn "," s) ∅.

(** Modelled from the spec: the quality a registered coding resolves to; a
    coding "not explicitly named adopts the wildcard's quality". *)
Definition resolvedQuality (accept : codings) (name : string) : Q :=
  match accept !! lowerString name with
  | Some q => q
  | None =>
      match accept !! "*" with
      | Some q => q
      | None => 0%Q
      end
  end.

Definition isCandidate (accept : codings) (name : string) : bool :=
  negb (String.eqb (lowerString name) "identity") && Qpositive (resolvedQuality accept name).

Section WithPlatform.
Context `{Platform}.

(** Modelled from the spec: [acceptedCompression] is declared outside
    [adapter.go]; the "candidate set = registered codings whose resolved
    quality > 0", identity "excluded from the candidate set regardless of
    its quality value". *)
Definition acceptedCompression (accept : codings) (comps : gmap string comp) : list string :=
  List.filter (isCandidate accept) (map fst (map_to_list comps)).

Definition priorityOf (comps : gmap string comp) (name : string) : Z :=
  match comps !! name with
  | Some c => comp_priority c
  | None => 0
  end.

Definition thenBy (c1 c2 : comparison) : comparison :=
  match c1 with
  | Eq => c2
  | _ => c1
  end.

(** Modelled from the spec: the order of two candidates, [Lt] when [a] is
    the better one. "Under PreferServer: order by descending server
    priority; ties broken by descending client quality, then lexical name
    order"; under PreferClient quality comes first. *)
Definition compareCandidates (p : PreferType) (accept : codings)
    (comps : gmap string comp) (a b : string) : comparison :=
  let byPriority := Z.compare (priorityOf comps b) (priorityOf comps a) in
  let byQuality := Qcompare (resolvedQuality accept b) (resolvedQuality accept a) in
  let byName := String.compare a b in
  match p with
  | PreferServer => thenBy byPriority (thenBy byQuality byName)
  | PreferClient => thenBy byQuality (thenBy byPriority byName)
  end.

Fixpoint insertCandidate (p : PreferType) (accept : codings)
    (comps : gmap string comp) (a : string) (l : list string) : list string :=
  match l with
  | [] => [a]
  | b :: l' =>
      match compareCandidates p accept comps a b with
      | Gt => b :: insertCandidate p accept comps a l'
      | _ => a :: l
      end
  end.

(** Modelled from the spec: the negotiation result, "an ordered list of
    acceptable coding names (best first)". *)
Definition orderCandidates (p : PreferType) (accept : codings)
    (comps : gmap string comp) (common : list string) : list string :=
  fold_right (insertCandidate p accept comps) [] common.

End WithPlatform.
End Negotiation.

(** ** The middleware *)
Section Middleware.
Context `{Platform}.

(** The writer a handler is given: the server's, the [*compressWriter] or
    [compressWriterWithCloseNotify] around it. *)
Inductive Writer :=
  | Underlying (w : ResponseWriter)
  | Wrapped
  | WrappedCloseNotify.

(** Modelled from the spec: the method sets of [*compressWriter] and
    [compressWriterWithCloseNotify] are declared outside [adapter.go]. The
    wrapper is a sink "optionally preserving an orthogonal close-notify
    capability if the original sink had it", a capability composed "only
    when the wrapped concrete sink actually supports" it: the plain wrapper
    is without it and the other wrapper has it. For a writer of the server,
    [w.(http.CloseNotifier)] is what the platform says. *)
Definition implementsCloseNotifier (w : Writer) : bool :=
  match w with
  | Underlying w => isCloseNotifier w
  | Wrapped => false
  | WrappedCloseNotify => true
  end.

(** The buffer pool a wrapper refers to. *)
Inductive PoolRef := bufPool.

(** [compressWriter]: the five fields the literal of [Adapter] sets.
    Modelled from the spec: the declaration is outside [adapter.go]; the
    remaining fields are those of the WrapperState, the "headers already
    sent" and "decision made" flags, the accumulation buffer, the active
    compressing writer and the byte counter. *)
Record compressWriter := mkCompressWriter {
  cw_ResponseWriter : option Writer;
  cw_config : config;
  cw_accept : codings;
  cw_common : list string;
  cw_pool : option PoolRef;
  cw_headersSent : bool;
  cw_decided : bool;
  cw_buf : string;
  cw_w : option CompressingWriter;
  cw_count : Z;
}.

(** [compressWriter{}] *)
Definition compressWriter_zero : compressWriter :=
  mkCompressWriter None (mkConfig 0 [] false PreferServer ∅) ∅ [] None false false
    EmptyString None 0.

Inductive Outcome :=
  | Returned
  | Panicked (v : PanicValue).

(** The state one exchange runs in. [gw] is the object the wrapper pointer
    refers to. [writerPool] holds the wrappers the pool retains; a
    [sync.Pool] may drop any of them at any time and hands out an item of
    its choice or nothing: [poolDrop] marks the items that are gone when the
    pool is next used, [poolPick] is what the next [Get] yields. *)
Record World := mkWorld {
  respHeader : Header;
  reqHeader : Header;
  gw : compressWriter;
  writerPool : list compressWriter;
  poolPick : option nat;
  poolDrop : list bool;
  app : App;
}.

(** [http.Handler]: [ServeHTTP(w, r)] *)
Definition Handler : Type := Writer -> World -> Outcome * World.

(** The functions of the package the closure calls. *)
Class Collaborators := {
  parseEncodings : string -> codings;
  acceptedCompression : codings -> gmap string comp -> list string;
  compressWriter_Close :
    compressWriter -> Header * App -> compressWriter * (Header * App) * option error;
}.
Context `{Collaborators}.

Definition set_respHeader (h : Header) (s : World) : World :=
  mkWorld h (reqHeader s) (gw s) (writerPool s) (poolPick s) (poolDrop s) (app s).
Definition set_reqHeader (h : Header) (s : World) : World :=
  mkWorld (respHeader s) h (gw s) (writerPool s) (poolPick s) (poolDrop s) (app s).
Definition set_gw (g : compressWriter) (s : World) : World :=
  mkWorld (respHeader s) (reqHeader s) g (writerPool s) (poolPick s) (poolDrop s) (app s).
Definition set_writerPool (p : list compressWriter) (s : World) : World :=
  mkWorld (respHeader s) (reqHeader s) (gw s) p (poolPick s) (poolDrop s) (app s).

(** What a pool retains of its items when those marked in [drop] are gone. *)
Fixpoint Pool_gc {A} (drop : list bool) (pool : list A) : list A :=
  match drop, pool with
  | true :: drop', _ :: pool' => Pool_gc drop' pool'
  | false :: drop', x :: pool' => x :: Pool_gc drop' pool'
  | _, _ => pool
  end.

(** [sync.Pool.Get]: an item of what the pool retains, or nil. *)
Definition Pool_Get {A} (drop : list bool) (pick : option nat) (pool : list A) :
    option A * list A :=
  let pool := Pool_gc drop pool in
  match pick with
  | None => (None, pool)
  | Some i =>
      match pool !! i with
      | Some x => (Some x, delete i pool)
      | None => (None, pool)
      end
  end.

(** [sync.Pool.Put]: the item joins the pool, which may drop it again. *)
Definition Pool_Put {A} (drop : list bool) (x : A) (pool : list A) : list A :=
  Pool_gc drop (x :: pool).

(** The deferred function (lines 103-113), statement by statement. *)
Definition deferred_Close (s : World) : World :=
  let '(g, (rh, a), _) := compressWriter_Close (gw s) (respHeader s, app s) in
  mkWorld rh (reqHeader s) g (writerPool s) (poolPick s) (poolDrop s) a.

Definition deferred_reset (s : World) : World := set_gw compressWriter_zero s.

Definition deferred_Put (s : World) : World :=
  set_writerPool (Pool_Put (poolDrop s) (gw s) (writerPool s)) s.

Definition deferred (s : World) : World :=
  deferred_Put (deferred_reset (deferred_Close s)).

(** Lines 72-75: the Vary header, then the negotiation. *)
Definition negotiated (c : config) (s : World) : list string :=
  acceptedCompression (parseEncodings (Header_Get (reqHeader s) acceptEncoding))
    (compressor c).

(** Lines 90-102: the state the handler runs in when a wrapper is used. *)
Definition acquire (c : config) (w : Writer) (s : World) : World :=
  let accept := parseEncodings (Header_Get (reqHeader s) acceptEncoding) in
  let common := acceptedCompression accept (compressor c) in
  let s := set_reqHeader (Header_Del (reqHeader s) _range) s in
  let '(_, pool) := Pool_Get (poolDrop s) (poolPick s) (writerPool s) in
  let s := set_writerPool pool s in
  set_gw (mkCompressWriter (Some w) c accept common (Some bufPool) false false
            EmptyString None 0) s.

(** Lines 115-119 *)
Definition wrap (w : Writer) : Writer :=
  if implementsCloseNotifier w then WrappedCloseNotify else Wrapped.

(** The handler function of lines 71-122. A deferred function runs whether
    the handler returns or panics, and the panic goes on after it. *)
Definition serve (c : config) (h : Handler) : Handler := fun w s =>
  let s := set_respHeader (addVaryHeader (respHeader s) acceptEncoding) s in
  if Nat.eqb (length (negotiated c s)) 0 then h w s
  else
    let '(out, s') := h (wrap w) (acquire c w s) in
    (out, deferred s').

(** The writer and the state [serve] starts the handler with. *)
Definition entered (c : config) (w : Writer) (s : World) : Writer * World :=
  let s := set_respHeader (addVaryHeader (respHeader s) acceptEncoding) s in
  if Nat.eqb (length (negotiated c s)) 0 then (w, s) else (wrap w, acquire c w s).

(** One request after the other through the same middleware, each arriving
    with headers of its own; the server recovers a panicking handler. *)
Fixpoint serveAll (c : config) (reqs : list (Handler * Writer * Header * Header))
    (s : World) : World :=
  match reqs with
  | [] => s
  | (h, w, rh, qh) :: reqs' =>
      serveAll c reqs' (serve c h w (set_reqHeader qh (set_respHeader rh s))).2
  end.

(** [Adapter] *)
Definition Adapter (opts : list Option) : option (Handler -> Handler) * option error :=
  match Adapter_config opts with
  | inr err => (None, Some err)
  | inl c =>
      if Nat.eqb (size (compressor c)) 0
      then (Some (fun h => h), None)
      else (Some (fun h => serve c h), None)
  end.

(** [DefaultAdapter] *)
Definition DefaultAdapter (opts : list Option) : option (Handler -> Handler) * option error :=
  Adapter (defaults ++ opts).

(** A handler that leaves the middleware's pool alone: it is private to
    the closure. *)
Definition keepsPool (h : Handler) : Prop :=
  ∀ w s, writerPool (h w s).2 = writerPool s.

(** A measure of the application state that every call of [Close] raises
    by one, such as the number of compressors released, and a handler that
    leaves it as it is. *)
Definition countsClose (count : App → nat) : Prop :=
  ∀ g rh a, count (compressWriter_Close g (rh, a)).1.2.2 = S (count a).

Definition keepsCount (count : App → nat) (h : Handler) : Prop :=
  ∀ w s, count (app (h w s).2) = count (app s).

(** Whether a request with the headers [qh] gets a wrapper. *)
Definition wantsWrapper (c : config) (qh : Header) : bool :=
  negb (Nat.eqb
          (length (acceptedCompression (parseEncodings (Header_Get qh acceptEncoding))
                     (compressor c))) 0).

End Middleware.

(** ** A concrete platform, to run the definitions on

    Providers are a coding name with a level; the server's writer says
    whether it is a [CloseNotifier]; the application state is the log of
    what handlers and [Close] did. *)
Definition examplePlatform : Platform := {|
  CompressorProvider := string * Z;
  parsedContentType := string;
  CompressingWriter := string;
  ResponseWriter := bool;
  App := list string;
  PanicValue := string;
  zlib_New := fun level =>
    if ((-2 <=? level) && (level <=? 9))%Z then inl ("deflate", level)
    else inr "zlib: invalid compression level";
  cgzip_New := fun level =>
    if ((-2 <=? level) && (level <=? 9))%Z then inl ("gzip", level)
    else inr "gzip: invalid compression level";
  brotli_New := fun level =>
    if ((0 <=? level) && (level <=? 11))%Z then inl ("br", level)
    else inr "brotli: invalid compression level";
  zstd_New := inl ("zstd", 3%Z);
  zlib_DefaultCompression := (-1);
  brotli_DefaultCompression := 3;
  isCloseNotifier := fun w => w;
|}.

Definition exampleCollaborators : @Collaborators examplePlatform := {|
  parseEncodings := Negotiation.parseEncodings;
  acceptedCompression := @Negotiation.acceptedCompression examplePlatform;
  compressWriter_Close := fun g '(rh, a) => (g, (rh, (a ++ ["Close"])%list), None);
|}.

(** The number of [Close] calls the example application state records. *)
Definition exampleCloseCount : @App examplePlatform → nat := fun a =>
  List.length (List.filter (String.eqb "Close") a).

(** A handler that sets a header on the response and returns, and one that
    panics half-way. *)
Definition exampleHandler : @Handler examplePlatform := fun w s =>
  (@Returned examplePlatform,
   set_respHeader (Header_Add (respHeader s) contentType "text/plain") s).

Definition panickingHandler : @Handler examplePlatform := fun w s =>
  (@Panicked examplePlatform "boom",
   set_respHeader (Header_Add (respHeader s) contentType "text/plain") s).

Definition exampleWorld (accept : string) : @World examplePlatform :=
  @mkWorld examplePlatform ∅
    (Header_Add (Header_Add ∅ acceptEncoding accept) _range "bytes=0-99")
    compressWriter_zero [] None [] [].

(** The configuration [DefaultAdapter] builds on the example platform. *)
Definition exampleConfig : @config examplePlatform :=
  @mkConfig examplePlatform 200 [] false PreferServer
    (<["zstd" := @mkComp examplePlatform ("zstd", 3%Z) (-50)]>
       (<["br" := @mkComp examplePlatform ("br", 3%Z) (-100)]>
          (<["gzip" := @mkComp examplePlatform ("gzip", (-1)%Z) (-200)]>
             (<["deflate" := @mkComp examplePlatform ("deflate", (-1)%Z) (-300)]> ∅)))).

(** Gzip at level 6, and a [MinSize] option, on the example platform. *)
Definition exampleGzip : @Option examplePlatform :=
  @GzipCompressor examplePlatform ("gzip", 6%Z).

Definition exampleMinSize (size : Z) : @Option examplePlatform :=
  @MinSize examplePlatform size.

(** Response headers that already carry the Vary value twice, as after two
    [Add] calls of an outer layer. *)
Definition exampleTwiceVary : Header :=
  Header_Add (Header_Add ∅ vary acceptEncoding) vary acceptEncoding.

Definition exampleTwiceVaryWorld : @World examplePlatform :=
  set_respHeader exampleTwiceVary (exampleWorld "br").

(** A platform whose zstd constructor fails, and a wrapper whose [Close]
    reports an error. *)
Definition brokenZstdPlatform : Platform := {|
  CompressorProvider := string * Z;
  parsedContentType := string;
  CompressingWriter := string;
  ResponseWriter := bool;
  App := list string;
  PanicValue := string;
  zlib_New := fun level => inl ("deflate", level);
  cgzip_New := fun level => inl ("gzip", level);
  brotli_New := fun level => inl ("br", level);
  zstd_New := inr "out of memory";
  zlib_DefaultCompression := (-1);
  brotli_DefaultCompression := 3;
  isCloseNotifier := fun w => w;
|}.

Definition brokenZstdCollaborators : @Collaborators brokenZstdPlatform := {|
  parseEncodings := Negotiation.parseEncodings;
  acceptedCompression := @Negotiation.acceptedCompression brokenZstdPlatform;
  compressWriter_Close := fun g '(rh, a) => (g, (rh, a), None);
|}.

Definition failingCloseCollaborators : @Collaborators examplePlatform := {|
  parseEncodings := Negotiation.parseEncodings;
  acceptedCompression := @Negotiation.acceptedCompression examplePlatform;
  compressWriter_Close :=
    fun g '(rh, a) => (g, (rh, (a ++ ["Close"])%list), Some "close failed");
|}.

(** * Properties *)

(** ** Canonical header keys *)
Section CanonicalKeys.
Import Textproto.

Ltac each_byte c := destruct c as [[] [] [] [] [] [] [] []]; vm_compute; try reflexivity.

Lemma stepByte_idem upper c : stepByte upper (stepByte upper c) = stepByte upper c.
Proof. destruct upper; each_byte c. Qed.

Lemma stepByte_valid upper c :
  validHeaderFieldByte (stepByte upper c) = validHeaderFieldByte c.
Proof. destruct upper; each_byte c. Qed.

Lemma stepByte_lower upper c : lowerByte (stepByte upper c) = lowerByte c.
Proof. destruct upper; each_byte c. Qed.

Lemma stepByte_of_lower upper c : stepByte upper (lowerByte c) = stepByte upper c.
Proof. destruct upper; each_byte c. Qed.

Lemma lowerByte_valid c : validHeaderFieldByte (lowerByte c) = validHeaderFieldByte c.
Proof. each_byte c. Qed.

Lemma canonicalize_cons upper c a :
  canonicalize upper (String c a) =
  String (stepByte upper c) (canonicalize (Ascii.eqb (stepByte upper c) "-") a).
Proof. reflexivity. Qed.

Lemma canonicalize_idem a : ∀ upper,
  canonicalize upper (canonicalize upper a) = canonicalize upper a.
Proof.
  induction a as [|c a IH]; intros upper; [reflexivity|].
  rewrite !canonicalize_cons, stepByte_idem. f_equal. apply IH.
Qed.

Lemma canonicalize_valid a : ∀ upper, allValid (canonicalize upper a) = allValid a.
Proof.
  induction a as [|c a IH]; intros upper; [reflexivity|].
  rewrite canonicalize_cons. simpl. by rewrite stepByte_valid, IH.
Qed.

Lemma canonicalize_lower a : ∀ upper,
  lowerString (canonicalize upper a) = lowerString a.
Proof.
  induction a as [|c a IH]; intros upper; [reflexivity|].
  rewrite canonicalize_cons. simpl. by rewrite stepByte_lower, IH.
Qed.

Lemma canonicalize_of_lower a : ∀ upper,
  canonicalize upper (lowerString a) = canonicalize upper a.
Proof.
  induction a as [|c a IH]; intros upper; [reflexivity|].
  simpl lowerString. rewrite !canonicalize_cons, stepByte_of_lower. f_equal. apply IH.
Qed.

Lemma lowerString_valid a : allValid (lowerString a) = allValid a.
Proof.
  induction a as [|c a IH]; [reflexivity|]. simpl. by rewrite lowerByte_valid, IH.
Qed.

Lemma looksLikeKey_true a : looksLikeKey true a ≠ Some false.
Proof.
  induction a as [|c a IH]; simpl; [discriminate|].
  destruct (validHeaderFieldByte c); [exact IH|].
  destruct (Ascii.eqb c " "); [exact IH | discriminate].
Qed.

Lemma looksLikeKey_false a :
  looksLikeKey false a = Some false ↔ allValid a = true.
Proof.
  induction a as [|c a IH]; simpl; [done|].
  destruct (validHeaderFieldByte c); simpl; [exact IH|].
  split; [|discriminate]. destruct (Ascii.eqb c " "); [|discriminate].
  intros E. by destruct (looksLikeKey_true a).
Qed.

Lemma canonicalMIMEHeaderKey_spec a :
  canonicalMIMEHeaderKey a = if allValid a then canonicalize true a else a.
Proof.
  unfold canonicalMIMEHeaderKey.
  pose proof (looksLikeKey_false a) as Hk.
  destruct (allValid a).
  - by rewrite (proj2 Hk eq_refl).
  - destruct (looksLikeKey false a) as [[]|]; try reflexivity.
    by discriminate (proj1 Hk eq_refl).
Qed.

Lemma append_String c p r : String c p ++ r = String c (p ++ r).
Proof. reflexivity. Qed.

Lemma allValid_app p r : allValid (p ++ r) = allValid p && allValid r.
Proof.
  induction p as [|c p IH]; [reflexivity|].
  rewrite append_String. simpl. by rewrite IH, andb_assoc.
Qed.

Lemma append_cons_assoc p c r : (p ++ String c EmptyString) ++ r = p ++ String c r.
Proof.
  induction p as [|d p IH]; [reflexivity|]. by rewrite !append_String, IH.
Qed.

Lemma quickCheck_spec rest : ∀ p upper,
  allValid p = true →
  canonicalize true (p ++ rest) = p ++ canonicalize upper rest →
  quickCheck (p ++ rest) upper rest =
  if allValid (p ++ rest) then canonicalize true (p ++ rest) else p ++ rest.
Proof.
  induction rest as [|c r IH]; intros p upper Hp Hc.
  - simpl quickCheck. rewrite Hc. destruct (allValid (p ++ EmptyString)); reflexivity.
  - simpl quickCheck.
    destruct (validHeaderFieldByte c) eqn:Hv; simpl.
    2:{ rewrite allValid_app. simpl. rewrite Hv. by rewrite andb_false_r. }
    destruct (upper && isLower c) eqn:E1; [apply canonicalMIMEHeaderKey_spec|].
    destruct (negb upper && isUpper c) eqn:E2; [apply canonicalMIMEHeaderKey_spec|].
    rewrite <- (append_cons_assoc p c r). apply IH.
    + rewrite allValid_app. simpl. by rewrite Hp, Hv.
    + rewrite append_cons_assoc, Hc, canonicalize_cons.
      unfold stepByte at 1 2. rewrite E1, E2.
      by rewrite <- (append_cons_assoc p c (canonicalize _ r)).
Qed.

Lemma CanonicalHeaderKey_spec s :
  CanonicalHeaderKey s = if allValid s then canonicalize true s else s.
Proof. exact (quickCheck_spec s EmptyString true eq_refl eq_refl). Qed.

Lemma CanonicalHeaderKey_idem s :
  CanonicalHeaderKey (CanonicalHeaderKey s) = CanonicalHeaderKey s.
Proof.
  rewrite (CanonicalHeaderKey_spec s). destruct (allValid s) eqn:E.
  - rewrite CanonicalHeaderKey_spec, canonicalize_valid, E. apply canonicalize_idem.
  - by rewrite CanonicalHeaderKey_spec, E.
Qed.

(** The comparison of [addVaryHeader] with [Accept-Encoding] ignores case,
    and nothing else. *)
Lemma CanonicalHeaderKey_acceptEncoding v :
  CanonicalHeaderKey v = acceptEncoding ↔ lowerString v = "accept-encoding".
Proof.
  rewrite CanonicalHeaderKey_spec. split.
  - destruct (allValid v); intros E.
    + by rewrite <- (canonicalize_lower v true), E.
    + by rewrite E.
  - intros E. pose proof (lowerString_valid v) as Hv. rewrite E in Hv.
    rewrite <- Hv. simpl. by rewrite <- canonicalize_of_lower, E.
Qed.

End CanonicalKeys.

(** ** The header map and [addVaryHeader] *)
Section VaryHeader.

Lemma Header_Values_Add (h : Header) key value :
  Header_Values (Header_Add h key value) key = (Header_Values h key ++ [value])%list.
Proof. unfold Header_Values at 1, Header_Add. by rewrite lookup_insert_eq. Qed.

Lemma Header_Values_Del (h : Header) key : Header_Values (Header_Del h key) key = [].
Proof. unfold Header_Values, Header_Del. by rewrite lookup_delete_eq. Qed.

Lemma Header_Values_Del_ne (h : Header) key key' :
  CanonicalHeaderKey key ≠ CanonicalHeaderKey key' →
  Header_Values (Header_Del h key) key' = Header_Values h key'.
Proof. intros Hne. unfold Header_Values, Header_Del. by rewrite lookup_delete_ne. Qed.

Lemma filter_none {A} (f : A → bool) l : existsb f l = false → List.filter f l = [].
Proof.
  induction l as [|x l IH]; simpl; [done|].
  destruct (f x); simpl; [discriminate|]. exact IH.
Qed.

Lemma filter_some {A} (f : A → bool) l :
  existsb f l = true → (1 ≤ List.length (List.filter f l))%nat.
Proof.
  induction l as [|x l IH]; simpl; [discriminate|].
  destruct (f x); simpl; [lia|]. exact IH.
Qed.

Lemma addVaryHeader_present (h : Header) value :
  existsb (fun v => String.eqb (CanonicalHeaderKey v) (CanonicalHeaderKey value))
    (Header_Values h vary) = true →
  addVaryHeader h value = h.
Proof. intros E. unfold addVaryHeader. by rewrite E. Qed.

Lemma addVaryHeader_absent (h : Header) value :
  existsb (fun v => String.eqb (CanonicalHeaderKey v) (CanonicalHeaderKey value))
    (Header_Values h vary) = false →
  addVaryHeader h value = Header_Add h vary (CanonicalHeaderKey value).
Proof. intros E. unfold addVaryHeader. by rewrite E. Qed.

(** After [addVaryHeader] the value is among the [Vary] values. *)
Lemma addVaryHeader_has (h : Header) value :
  existsb (fun v => String.eqb (CanonicalHeaderKey v) (CanonicalHeaderKey value))
    (Header_Values (addVaryHeader h value) vary) = true.
Proof.
  destruct (existsb (fun v => String.eqb (CanonicalHeaderKey v) (CanonicalHeaderKey value))
              (Header_Values h vary)) eqn:E.
  - by rewrite (addVaryHeader_present _ _ E).
  - rewrite (addVaryHeader_absent _ _ E), Header_Values_Add, existsb_app. simpl.
    rewrite CanonicalHeaderKey_idem, String.eqb_refl. by rewrite orb_true_r.
Qed.

(** A second call changes nothing, whatever the case the value is written in. *)
Lemma addVaryHeader_again (h : Header) value value' :
  CanonicalHeaderKey value' = CanonicalHeaderKey value →
  addVaryHeader (addVaryHeader h value) value' = addVaryHeader h value.
Proof.
  intros E. apply addVaryHeader_present. rewrite E. apply addVaryHeader_has.
Qed.

Lemma addVaryHeader_iter (h : Header) value n :
  Nat.iter (S n) (fun h => addVaryHeader h value) h = addVaryHeader h value.
Proof.
  induction n as [|n IH]; [reflexivity|].
  change (Nat.iter (S (S n)) _ h)
    with (addVaryHeader (Nat.iter (S n) (fun h => addVaryHeader h value) h) value).
  rewrite IH. by apply addVaryHeader_again.
Qed.

Lemma varyCount_addVaryHeader (h : Header) :
  varyCount (addVaryHeader h acceptEncoding) = Nat.max 1 (varyCount h).
Proof.
  unfold varyCount.
  destruct (existsb (fun v => String.eqb (CanonicalHeaderKey v)
                                (CanonicalHeaderKey acceptEncoding))
              (Header_Values h vary)) eqn:E.
  - rewrite (addVaryHeader_present _ _ E). apply filter_some in E.
    change (CanonicalHeaderKey acceptEncoding) with acceptEncoding in E. lia.
  - rewrite (addVaryHeader_absent _ _ E), Header_Values_Add, List.filter_app.
    apply filter_none in E.
    change (CanonicalHeaderKey acceptEncoding) with acceptEncoding in *.
    by rewrite E.
Qed.

End VaryHeader.

(** ** Building the configuration *)
Section ConfigurationFacts.
Context `{Platform}.

Lemma applyOptions_app (pre post : list Option) (c : config) :
  applyOptions (pre ++ post) c =
  match applyOptions pre c with
  | inl c' => applyOptions post c'
  | inr err => inr err
  end.
Proof.
  revert c. induction pre as [|o pre IH]; intros c; [reflexivity|].
  simpl. destruct (o c) as [c' [err|]]; [reflexivity|apply IH].
Qed.

Lemma applyOptions_fails (pre post : list Option) (o : Option) (c c' : config) err :
  applyOptions pre c = inl c' → (o c').2 = Some err →
  applyOptions (pre ++ o :: post) c = inr err.
Proof.
  intros Hpre Ho. rewrite applyOptions_app, Hpre. simpl.
  destruct (o c') as [c'' e]. simpl in Ho. by rewrite Ho.
Qed.

Lemma applyOptions_keeps {A} (f : config → A) (opts : list Option) :
  Forall (fun o : Option => ∀ c, f (o c).1 = f c) opts →
  ∀ c c', applyOptions opts c = inl c' → f c' = f c.
Proof.
  induction 1 as [|o opts Ho _ IH]; intros c c'; simpl.
  - by intros [= ->].
  - specialize (Ho c). destruct (o c) as [c1 [err|]]; [discriminate|].
    intros E. rewrite (IH _ _ E). exact Ho.
Qed.

Lemma Compressor_keepsMinSize name priority g : keepsMinSize (Compressor name priority g).
Proof. by intros c. Qed.

Lemma errorOption_keepsMinSize err : keepsMinSize (errorOption err).
Proof. by intros c. Qed.

Lemma MinSize_keepsCompressor size : keepsCompressor (MinSize size).
Proof. intros c. unfold MinSize. by destruct (size <? 0)%Z. Qed.

Lemma Compressor_registers name priority g c :
  Compressor name priority g c =
  (set_compressor (<[name := mkComp g priority]> (compressor c)) c, None).
Proof. reflexivity. Qed.

Lemma MinSize_negative size c :
  (size < 0)%Z →
  MinSize size c = (c, Some ("minimum size can not be negative: " ++ pretty size)).
Proof. intros Hs. unfold MinSize. by rewrite (proj2 (Z.ltb_lt _ _) Hs). Qed.

Lemma MinSize_sets size c : (0 ≤ size)%Z → MinSize size c = (set_minSize size c, None).
Proof. intros Hs. unfold MinSize. by rewrite (proj2 (Z.ltb_ge _ _) Hs). Qed.

(** The configuration the defaults of [DefaultAdapter] build when the four
    constructors succeed. *)
Lemma defaults_config gd gg gb gz :
  zlib_New zlib_DefaultCompression = inl gd →
  cgzip_New gzip_DefaultCompression = inl gg →
  brotli_New brotli_DefaultCompression = inl gb →
  zstd_New = inl gz →
  applyOptions defaults initialConfig =
  inl (mkConfig 200 [] false PreferServer
         (<[zstd_Encoding := mkComp gz (-50)]>
            (<[brotli_Encoding := mkComp gb (-100)]>
               (<[gzipEncoding := mkComp gg (-200)]>
                  (<[zlib_Encoding := mkComp gd (-300)]> ∅))))).
Proof.
  intros Hd Hg Hb Hz.
  unfold defaults, DeflateCompressionLevel, GzipCompressionLevel, BrotliCompressionLevel,
    defaultZstandardCompressor, NewDefaultGzipCompressor.
  rewrite Hd, Hg, Hb, Hz. reflexivity.
Qed.

Lemma defaults_keepMinSize_prefix (c : config) :
  applyOptions defaults initialConfig = inl c → minSize c = DefaultMinSize.
Proof.
  unfold defaults, DeflateCompressionLevel, GzipCompressionLevel, BrotliCompressionLevel,
    defaultZstandardCompressor, NewDefaultGzipCompressor.
  destruct (zlib_New _); [|discriminate].
  destruct (cgzip_New _); [|discriminate].
  destruct (brotli_New _); [|discriminate].
  destruct zstd_New; [|discriminate].
  by intros [= <-].
Qed.

(** C6 (as amended). [DefaultAdapter] sets the minimum size to
    [DefaultMinSize] = 200, and it stays 200 unless one of the caller's
    options changes it; [Adapter] itself starts from a minimum size of 0, so
    a middleware built by [Adapter] without a [MinSize] option compresses
    from 0 bytes on. *)
Theorem minSize_without_MinSize (opts : list Option) (c : config) :
  Forall keepsMinSize opts →
  (Adapter_config opts = inl c → minSize c = 0%Z) ∧
  (DefaultAdapter_config opts = inl c → minSize c = 200%Z).
Proof.
  intros Hk. split.
  - intros E. exact (applyOptions_keeps minSize opts Hk _ _ E).
  - unfold DefaultAdapter_config, Adapter_config. rewrite applyOptions_app.
    destruct (applyOptions defaults initialConfig) as [c0|err] eqn:E0; [|discriminate].
    intros E. rewrite (applyOptions_keeps minSize opts Hk _ _ E).
    exact (defaults_keepMinSize_prefix _ E0).
Qed.

End ConfigurationFacts.

(** ** The middleware *)
Section MiddlewareFacts.
Context `{Pf : Platform} {Co : @Collaborators Pf}.

Lemma deferred_effect (s : World) :
  (respHeader (deferred s), app (deferred s)) =
    (compressWriter_Close (gw s) (respHeader s, app s)).1.2 ∧
  gw (deferred s) = compressWriter_zero ∧
  writerPool (deferred s) = Pool_Put (poolDrop s) compressWriter_zero (writerPool s) ∧
  reqHeader (deferred s) = reqHeader s.
Proof.
  unfold deferred, deferred_Put, deferred_reset, deferred_Close.
  by destruct (compressWriter_Close (gw s) (respHeader s, app s)) as [[g [rh a]] e].
Qed.

Lemma Pool_gc_sublist {A} (drop : list bool) : ∀ pool : list A,
  Pool_gc drop pool `sublist_of` pool.
Proof.
  induction drop as [|[] drop IH]; intros [|x pool]; simpl; try reflexivity.
  - by apply sublist_cons.
  - by apply sublist_skip.
Qed.

Lemma Pool_Get_sublist {A} drop pick (pool : list A) :
  (Pool_Get drop pick pool).2 `sublist_of` pool.
Proof.
  unfold Pool_Get. pose proof (Pool_gc_sublist drop pool) as Hgc.
  destruct pick as [i|]; [|exact Hgc].
  destruct (Pool_gc drop pool !! i); [|exact Hgc]. simpl.
  etrans; [apply sublist_delete|exact Hgc].
Qed.

Lemma Pool_Put_sublist {A} drop (x : A) (pool : list A) :
  Pool_Put drop x pool `sublist_of` x :: pool.
Proof. apply Pool_gc_sublist. Qed.

Lemma Forall_sublist_of {A} (P : A → Prop) (l1 l2 : list A) :
  l1 `sublist_of` l2 → Forall P l2 → Forall P l1.
Proof.
  rewrite !Forall_forall. intros Hs HP x Hx. apply HP. by eapply elem_of_sublist.
Qed.

Lemma Pool_Get_Forall {A} (P : A → Prop) drop pick (pool : list A) :
  Forall P pool → Forall P (Pool_Get drop pick pool).2.
Proof. apply Forall_sublist_of, Pool_Get_sublist. Qed.

Lemma serve_passthrough (c : config) (h : Handler) w s :
  negotiated c s = [] →
  entered c w s = (w, set_respHeader (addVaryHeader (respHeader s) acceptEncoding) s) ∧
  serve c h w s = h w (entered c w s).2.
Proof.
  intros E. unfold serve, entered.
  change (negotiated c (set_respHeader _ s)) with (negotiated c s).
  by rewrite E.
Qed.

Lemma serve_wrapped (c : config) (h : Handler) w s :
  negotiated c s ≠ [] →
  entered c w s =
    (wrap w, acquire c w (set_respHeader (addVaryHeader (respHeader s) acceptEncoding) s)) ∧
  serve c h w s =
    ((h (entered c w s).1 (entered c w s).2).1,
     deferred (h (entered c w s).1 (entered c w s).2).2).
Proof.
  intros E. unfold serve, entered.
  change (negotiated c (set_respHeader _ s)) with (negotiated c s).
  destruct (negotiated c s) as [|name common]; [done|]. simpl.
  by destruct (h _ _).
Qed.

Lemma acquire_effect (c : config) w s :
  respHeader (acquire c w s) = respHeader s ∧
  reqHeader (acquire c w s) = Header_Del (reqHeader s) _range ∧
  poolDrop (acquire c w s) = poolDrop s ∧
  writerPool (acquire c w s) = (Pool_Get (poolDrop s) (poolPick s) (writerPool s)).2 ∧
  gw (acquire c w s) =
    mkCompressWriter (Some w) c
      (parseEncodings (Header_Get (reqHeader s) acceptEncoding))
      (negotiated c s) (Some bufPool) false false EmptyString None 0.
Proof.
  unfold acquire. simpl.
  by destruct (Pool_Get (poolDrop s) (poolPick s) (writerPool s)) as [got pool].
Qed.

Lemma entered_respHeader (c : config) w s :
  respHeader (entered c w s).2 = addVaryHeader (respHeader s) acceptEncoding.
Proof.
  unfold entered. change (negotiated c (set_respHeader _ s)) with (negotiated c s).
  destruct (Nat.eqb _ 0); [reflexivity|]. cbn [snd].
  by rewrite (proj1 (acquire_effect _ _ _)).
Qed.

(** C1. When the options leave no coding registered, [Adapter] returns the
    middleware that gives every handler back as it is: the handler is called
    with the same writer and request, nothing is added to the headers and no
    wrapper or pool is touched. *)
Theorem Adapter_without_codings (opts : list Option) (c : config) :
  Adapter_config opts = inl c →
  size (compressor c) = 0 ∨ Forall keepsCompressor opts →
  ∃ mw, Adapter opts = (Some mw, None) ∧ ∀ h : Handler, mw h = h.
Proof.
  intros Hc Hz. exists (fun h => h). split; [|done].
  assert (size (compressor c) = 0) as Hs.
  { destruct Hz as [Hz|Hz]; [exact Hz|].
    rewrite (applyOptions_keeps compressor opts Hz _ _ Hc). apply map_size_empty. }
  unfold Adapter. by rewrite Hc, Hs.
Qed.

(** C5. A failing option makes [Adapter] return its error and no middleware,
    whatever options follow it; [Adapter] returns either a middleware or an
    error, never both; and [MinSize] of a negative size, [errorOption] and a
    compression-level option whose constructor fails are failing options. *)
Theorem Adapter_fails_atomically (pre post : list Option) (o : Option) (c : config) err :
  applyOptions pre initialConfig = inl c →
  (o c).2 = Some err →
  Adapter (pre ++ o :: post) = (None, Some err) ∧
  Adapter (pre ++ o :: post) = Adapter (pre ++ [o]) ∧
  (∀ opts, (∃ mw, Adapter opts = (Some mw, None)) ∨ (∃ e, Adapter opts = (None, Some e))) ∧
  (∀ size c', (size < 0)%Z → ∃ e, (MinSize size c').2 = Some e) ∧
  (∀ e c', (errorOption e c').2 = Some e) ∧
  (∀ level e, zlib_New level = inr e → DeflateCompressionLevel level = errorOption e) ∧
  (∀ level e, cgzip_New level = inr e → GzipCompressionLevel level = errorOption e) ∧
  (∀ level e, brotli_New level = inr e → BrotliCompressionLevel level = errorOption e).
Proof.
  intros Hpre Ho.
  assert (∀ post', Adapter (pre ++ o :: post') = (None, Some err)) as Hfail.
  { intros post'. unfold Adapter, Adapter_config.
    by rewrite (applyOptions_fails pre post' o _ _ _ Hpre Ho). }
  split; [apply Hfail|]. split; [by rewrite !Hfail|]. split.
  { intros opts. unfold Adapter. destruct (Adapter_config opts) as [c'|e].
    - left. destruct (Nat.eqb (size (compressor c')) 0); eauto.
    - right. eauto. }
  split; [intros size c' Hs; rewrite (MinSize_negative _ _ Hs); eauto|].
  split; [done|].
  split; [intros level e E; unfold DeflateCompressionLevel; by rewrite E|].
  split; [intros level e E; unfold GzipCompressionLevel, NewDefaultGzipCompressor;
          by rewrite E|].
  intros level e E; unfold BrotliCompressionLevel; by rewrite E.
Qed.

(** C10. When the four constructors succeed at the default levels,
    [DefaultAdapter] without options registers exactly deflate (-300), gzip
    (-200), br (-100) and zstd (-50), each with the provider built at that
    level, and a minimum size of 200; the caller's options run after the
    defaults, from the configuration the defaults built, so a later
    [MinSize] or [Compressor] replaces the default for its setting. *)
Theorem DefaultAdapter_defaults gd gg gb gz :
  zlib_New zlib_DefaultCompression = inl gd →
  cgzip_New gzip_DefaultCompression = inl gg →
  brotli_New brotli_DefaultCompression = inl gb →
  zstd_New = inl gz →
  let c0 :=
    mkConfig 200 [] false PreferServer
      (<["zstd" := mkComp gz (-50)]>
         (<["br" := mkComp gb (-100)]>
            (<["gzip" := mkComp gg (-200)]>
               (<["deflate" := mkComp gd (-300)]> ∅)))) in
  DefaultAdapter_config [] = inl c0 ∧
  DefaultAdapter [] = (Some (serve c0), None) ∧
  (∀ opts, DefaultAdapter opts = Adapter (defaults ++ opts)) ∧
  dom (compressor c0) = ({["deflate"; "gzip"; "br"; "zstd"]} : gset string) ∧
  size (compressor c0) = 4 ∧
  (∀ opts, DefaultAdapter_config opts = applyOptions opts c0) ∧
  (∀ n, (0 ≤ n)%Z → DefaultAdapter_config [MinSize n] = inl (set_minSize n c0)) ∧
  (∀ name priority g,
     DefaultAdapter_config [Compressor name priority g] =
     inl (set_compressor (<[name := mkComp g priority]> (compressor c0)) c0)).
Proof.
  intros Hd Hg Hb Hz c0.
  pose proof (defaults_config _ _ _ _ Hd Hg Hb Hz) as E0.
  assert (Hall : ∀ opts, DefaultAdapter_config opts = applyOptions opts c0).
  { intros opts. unfold DefaultAdapter_config, Adapter_config.
    by rewrite applyOptions_app, E0. }
  split; [by rewrite Hall|].
  split.
  { unfold DefaultAdapter, Adapter. rewrite app_nil_r.
    unfold Adapter_config. rewrite E0.
    replace (size _) with 4; [reflexivity|].
    simpl. rewrite !map_size_insert_None, map_size_empty; [done|..];
      by rewrite ?lookup_insert_ne, ?lookup_empty. }
  split; [reflexivity|].
  split; [subst c0; simpl; rewrite !dom_insert_L, dom_empty_L; set_solver|].
  split.
  { subst c0. simpl. rewrite !map_size_insert_None, map_size_empty; [done|..];
      by rewrite ?lookup_insert_ne, ?lookup_empty. }
  split; [exact Hall|]. split.
  - intros n Hn. rewrite Hall. simpl. by rewrite MinSize_sets.
  - intros name priority g. by rewrite Hall.
Qed.


(** C3 (as amended). [addVaryHeader] never adds a second entry: the number
    of Vary values that name Accept-Encoding is afterwards the number before,
    or one if there was none, and this is the header set the middleware
    starts every handler with, wrapped or not. So headers that held at most
    one such value hold exactly one, however often [addVaryHeader] runs;
    running it again changes nothing, in whatever case the value is
    written; and a value names Accept-Encoding exactly when it is
    Accept-Encoding up to the case of its letters. *)
Theorem Vary_added_at_most_once (c : config) w s (h : Header) :
  varyCount (addVaryHeader h acceptEncoding) = Nat.max 1 (varyCount h) ∧
  varyCount (respHeader (entered c w s).2) = Nat.max 1 (varyCount (respHeader s)) ∧
  ((varyCount h ≤ 1)%nat →
   ∀ n, varyCount (Nat.iter (S n) (fun h => addVaryHeader h acceptEncoding) h) = 1) ∧
  (∀ n, Nat.iter (S n) (fun h => addVaryHeader h acceptEncoding) h =
        addVaryHeader h acceptEncoding) ∧
  (∀ value value', CanonicalHeaderKey value' = CanonicalHeaderKey value →
     addVaryHeader (addVaryHeader h value) value' = addVaryHeader h value) ∧
  (∀ v, CanonicalHeaderKey v = acceptEncoding ↔
        Textproto.lowerString v = "accept-encoding").
Proof.
  split; [apply varyCount_addVaryHeader|].
  split; [by rewrite entered_respHeader, varyCount_addVaryHeader|].
  split; [intros Hle n; rewrite addVaryHeader_iter, varyCount_addVaryHeader; lia|].
  split; [intros n; apply addVaryHeader_iter|].
  split; [intros value value'; apply addVaryHeader_again|].
  apply CanonicalHeaderKey_acceptEncoding.
Qed.

(** C4. When the negotiation finds a candidate, the handler is started with
    a request whose Range header has been deleted and whose other headers
    are as they came; when it finds none, the handler is started with the
    original writer and the request headers unchanged. *)
Theorem Range_removed_when_negotiated (c : config) (h : Handler) w s :
  let s0 := (entered c w s).2 in
  (negotiated c s ≠ [] →
     serve c h w s = ((h (entered c w s).1 s0).1, deferred (h (entered c w s).1 s0).2) ∧
     reqHeader s0 = Header_Del (reqHeader s) _range ∧
     Header_Values (reqHeader s0) _range = [] ∧
     Header_Get (reqHeader s0) _range = EmptyString ∧
     ∀ key, CanonicalHeaderKey key ≠ _range →
            Header_Values (reqHeader s0) key = Header_Values (reqHeader s) key) ∧
  (negotiated c s = [] →
     serve c h w s = h w s0 ∧ reqHeader s0 = reqHeader s).
Proof.
  intros s0. split.
  - intros E. destruct (serve_wrapped c h w s E) as [He Hs].
    assert (reqHeader s0 = Header_Del (reqHeader s) _range) as Hr.
    { subst s0. rewrite He. simpl. by rewrite (proj1 (proj2 (acquire_effect _ _ _))). }
    split; [exact Hs|]. split; [exact Hr|]. rewrite Hr.
    split; [apply Header_Values_Del|].
    split; [unfold Header_Get; by rewrite Header_Values_Del|].
    intros key Hk. apply Header_Values_Del_ne. by intros E'; apply Hk.
  - intros E. destruct (serve_passthrough c h w s E) as [He Hs].
    split; [exact Hs|]. subst s0. by rewrite He.
Qed.


Lemma serve_wrapped_effect (c : config) (h : Handler) w s :
  negotiated c s ≠ [] →
  keepsPool h →
  Forall (eq compressWriter_zero) (writerPool s) →
  let r := h (entered c w s).1 (entered c w s).2 in
  (serve c h w s).1 = r.1 ∧
  (respHeader (serve c h w s).2, app (serve c h w s).2) =
    (compressWriter_Close (gw r.2) (respHeader r.2, app r.2)).1.2 ∧
  (∀ count : App → nat, countsClose count →
     count (app (serve c h w s).2) = S (count (app r.2))) ∧
  gw (serve c h w s).2 = compressWriter_zero ∧
  writerPool (serve c h w s).2 =
    Pool_Put (poolDrop r.2) compressWriter_zero
      (Pool_Get (poolDrop s) (poolPick s) (writerPool s)).2 ∧
  writerPool (serve c h w s).2 `sublist_of` compressWriter_zero :: writerPool s ∧
  Forall (eq compressWriter_zero) (writerPool (serve c h w s).2).
Proof.
  intros E Hh Hpool r.
  destruct (serve_wrapped c h w s E) as [He Hs].
  pose proof (Hh (entered c w s).1 (entered c w s).2) as Hp. fold r in Hp.
  destruct (deferred_effect r.2) as (Dc & Dg & Dp & _).
  assert (writerPool (entered c w s).2 =
          (Pool_Get (poolDrop s) (poolPick s) (writerPool s)).2) as Hw.
  { rewrite He. simpl. by rewrite (proj1 (proj2 (proj2 (proj2 (acquire_effect _ _ _))))). }
  rewrite Hs. cbn [fst snd]. fold r.
  split; [done|]. split; [exact Dc|]. split.
  { intros count Hcount.
    change (app (deferred r.2)) with (respHeader (deferred r.2), app (deferred r.2)).2.
    rewrite Dc. apply Hcount. }
  split; [exact Dg|].
  assert (writerPool (deferred r.2) =
          Pool_Put (poolDrop r.2) compressWriter_zero
            (Pool_Get (poolDrop s) (poolPick s) (writerPool s)).2) as Hfin
    by (by rewrite Dp, Hp, Hw).
  assert (writerPool (deferred r.2) `sublist_of` compressWriter_zero :: writerPool s)
    as Hsub.
  { rewrite Hfin. etrans; [apply Pool_Put_sublist|].
    apply sublist_skip, Pool_Get_sublist. }
  split; [exact Hfin|]. split; [exact Hsub|].
  apply (Forall_sublist_of _ _ _ Hsub). by constructor.
Qed.

(** C2. When a wrapper is acquired, whatever way the handler ends, by
    returning or by panicking, the way it ended is passed on and [Close]
    has been called exactly once, on the wrapper as the handler left it:
    the response headers and the application state are the ones that one
    call returned, and whatever every call of [Close] raises by one has
    gone up by one. The wrapper object is then the zero value, and it is
    that zero value the pool is given; whatever the pool drops, it holds
    nothing but what it held before and that zero value, so a pool of zero
    values stays a pool of zero values. *)
Theorem wrapper_closed_once_and_zeroed (c : config) (h : Handler) w s :
  negotiated c s ≠ [] →
  keepsPool h →
  Forall (eq compressWriter_zero) (writerPool s) →
  let r := h (entered c w s).1 (entered c w s).2 in
  (serve c h w s).1 = r.1 ∧
  (respHeader (serve c h w s).2, app (serve c h w s).2) =
    (compressWriter_Close (gw r.2) (respHeader r.2, app r.2)).1.2 ∧
  (∀ count : App → nat, countsClose count →
     count (app (serve c h w s).2) = S (count (app r.2))) ∧
  gw (serve c h w s).2 = compressWriter_zero ∧
  writerPool (serve c h w s).2 =
    Pool_Put (poolDrop r.2) compressWriter_zero
      (Pool_Get (poolDrop s) (poolPick s) (writerPool s)).2 ∧
  writerPool (serve c h w s).2 `sublist_of` compressWriter_zero :: writerPool s ∧
  Forall (eq compressWriter_zero) (writerPool (serve c h w s).2).
Proof. exact (serve_wrapped_effect c h w s). Qed.

(** The pool of a middleware starts empty, and after any run of requests
    every wrapper in it is the zero value. *)
Lemma writerPool_zeroed (c : config) (reqs : list (Handler * Writer * Header * Header)) :
  Forall (fun q => keepsPool q.1.1.1) reqs →
  ∀ s, Forall (eq compressWriter_zero) (writerPool s) →
       Forall (eq compressWriter_zero) (writerPool (serveAll c reqs s)).
Proof.
  induction 1 as [|[[[h w] rh] qh] reqs Hh _ IH]; intros s Hs; [exact Hs|].
  simpl. apply IH. simpl in Hh.
  set (s1 := set_reqHeader qh (set_respHeader rh s)).
  assert (Forall (eq compressWriter_zero) (writerPool s1)) as Hs1 by exact Hs.
  destruct (negotiated c s1) as [|name common] eqn:E.
  - destruct (serve_passthrough c h w s1 E) as [He ->].
    rewrite (Hh _ _), He. exact Hs1.
  - assert (negotiated c s1 ≠ []) as E' by (by rewrite E).
    exact (proj2 (proj2 (proj2 (proj2 (proj2 (proj2
             (serve_wrapped_effect c h w s1 E' Hh Hs1))))))).
Qed.

End MiddlewareFacts.

(** ** Negotiation

    In this section [parseEncodings], [acceptedCompression] and
    [orderCandidates] are the definitions of the module [Negotiation]. *)
Section NegotiationFacts.
Context `{Pf : Platform}.
Import Negotiation.

Lemma Qpositive_lt (q : Q) : Qpositive q = true ↔ (0 < q)%Q.
Proof.
  unfold Qpositive, Qlt. simpl. rewrite Z.ltb_lt, Z.mul_1_r. reflexivity.
Qed.

Lemma Qpositive_zero (q : Q) : (q == 0)%Q → Qpositive q = false.
Proof.
  unfold Qpositive, Qeq. simpl. rewrite Z.mul_1_r. intros ->. reflexivity.
Qed.

Lemma acceptedCompression_elem (accept : codings) (comps : gmap string comp) name :
  In name (acceptedCompression accept comps) ↔
  is_Some (comps !! name) ∧ isCandidate accept name = true.
Proof.
  unfold acceptedCompression. rewrite List.filter_In, <- list_elem_of_In.
  rewrite list_elem_of_fmap. split.
  - intros [[[k v] [-> Hkv]] Hc]. apply elem_of_map_to_list in Hkv. by eauto.
  - intros [[v Hv] Hc]. split; [|exact Hc].
    exists (name, v). split; [reflexivity|]. by apply elem_of_map_to_list.
Qed.

Lemma acceptedCompression_NoDup (accept : codings) (comps : gmap string comp) :
  List.NoDup (acceptedCompression accept comps).
Proof.
  unfold acceptedCompression. apply List.NoDup_filter.
  apply NoDup_ListNoDup. apply NoDup_fst_map_to_list.
Qed.

(** C8. Every name [acceptedCompression] returns is a registered coding
    whose resolved quality is greater than 0, and no name comes twice; this
    holds for the codings parsed from any header value. A coding the client
    lists with quality 0 is not returned, wildcard or not. *)
Theorem acceptedCompression_sound (accept : codings) (comps : gmap string comp) :
  List.Forall (fun name => is_Some (comps !! name) ∧ (0 < resolvedQuality accept name)%Q)
    (acceptedCompression accept comps) ∧
  List.NoDup (acceptedCompression accept comps) ∧
  (∀ header,
     List.Forall (fun name => is_Some (comps !! name) ∧
                              (0 < resolvedQuality (parseEncodings header) name)%Q)
       (acceptedCompression (parseEncodings header) comps)) ∧
  (∀ name q, accept !! Textproto.lowerString name = Some q → (q == 0)%Q →
             ¬ In name (acceptedCompression accept comps)).
Proof.
  assert (∀ a, List.Forall (fun name => is_Some (comps !! name) ∧
                                        (0 < resolvedQuality a name)%Q)
                 (acceptedCompression a comps)) as Hall.
  { intros a. apply List.Forall_forall. intros name Hin.
    apply acceptedCompression_elem in Hin as [Hreg Hc]. split; [exact Hreg|].
    unfold isCandidate in Hc. apply andb_true_iff in Hc as [_ Hq].
    by apply Qpositive_lt. }
  split; [apply Hall|]. split; [apply acceptedCompression_NoDup|].
  split; [intros header; apply Hall|].
  intros name q Hq Hz Hin.
  apply acceptedCompression_elem in Hin as [_ Hc].
  unfold isCandidate, resolvedQuality in Hc. rewrite Hq in Hc.
  rewrite (Qpositive_zero _ Hz) in Hc. by rewrite andb_false_r in Hc.
Qed.

Lemma builtin_keys (gd gg gb gz : CompressorProvider) :
  map fst (map_to_list
             (<["zstd" := mkComp gz (-50)]>
                (<["br" := mkComp gb (-100)]>
                   (<["gzip" := mkComp gg (-200)]>
                      (<["deflate" := mkComp gd (-300)]> (∅ : gmap string comp)))))) =
  ["gzip"; "zstd"; "br"; "deflate"].
Proof. vm_compute. reflexivity. Qed.

(** C7 (as amended). The built-in options register deflate with priority
    -300, gzip with -200, br with -100 and zstd with -50, and under
    [PreferServer] the acceptable ones among them come in the order zstd,
    br, gzip, deflate, best first, whatever the client's qualities: the
    order deflate, gzip, br, zstd is the one of increasing preference. *)
Theorem builtin_priorities_order (gd gg gb gz : CompressorProvider) (accept : codings) :
  let comps : gmap string comp :=
    <["zstd" := mkComp gz (-50)]>
      (<["br" := mkComp gb (-100)]>
         (<["gzip" := mkComp gg (-200)]>
            (<["deflate" := mkComp gd (-300)]> ∅))) in
  applyOptions [DeflateCompressor gd; GzipCompressor gg; BrotliCompressor gb;
                ZstandardCompressor gz] initialConfig =
    inl (mkConfig 0 [] false PreferServer comps) ∧
  priorityOf comps "deflate" = (-300)%Z ∧
  priorityOf comps "gzip" = (-200)%Z ∧
  priorityOf comps "br" = (-100)%Z ∧
  priorityOf comps "zstd" = (-50)%Z ∧
  orderCandidates PreferServer accept comps (acceptedCompression accept comps) =
    List.filter (isCandidate accept) ["zstd"; "br"; "gzip"; "deflate"].
Proof.
  intros comps.
  split; [reflexivity|].
  do 4 (split; [vm_compute; reflexivity|]).
  unfold acceptedCompression. subst comps. rewrite builtin_keys.
  cbn [List.filter].
  destruct (isCandidate accept "gzip"), (isCandidate accept "zstd"),
    (isCandidate accept "br"), (isCandidate accept "deflate");
    vm_compute; reflexivity.
Qed.

End NegotiationFacts.

(** ** The properties on the example platform *)
Section Examples.
Import Negotiation.

Local Abbreviation Pf := examplePlatform.
Local Abbreviation Co := exampleCollaborators.
#[local] Existing Instance examplePlatform.
#[local] Existing Instance exampleCollaborators.

Example canon_lower : CanonicalHeaderKey "accept-encoding" = "Accept-Encoding".
Proof. reflexivity. Qed.

Example canon_list : CanonicalHeaderKey "accept-encoding, cookie" = "accept-encoding, cookie".
Proof. reflexivity. Qed.

Example parse_qualities :
  map_to_list (parseEncodings "gzip;q=0.5, BR , deflate;q=0, zstd;q=abc") =
  [("gzip", 0.5%Q); ("zstd", 1%Q); ("br", 1%Q); ("deflate", 0%Q)].
Proof. vm_compute. reflexivity. Qed.

(** C3, as stated, fails: headers that carry the Vary value twice still
    carry it twice after [addVaryHeader], and so does the response of a
    request served through the middleware. *)
Lemma Vary_twice_stays_twice :
  varyCount (addVaryHeader exampleTwiceVary acceptEncoding) ≠ 1 ∧
  varyCount (respHeader (@serve Pf Co exampleConfig exampleHandler
                           (@Underlying Pf true) exampleTwiceVaryWorld).2) ≠ 1.
Proof. split; vm_compute; discriminate. Qed.

(** C6, as stated, fails: [Adapter] with a gzip compressor and no [MinSize]
    option builds a configuration whose minimum size is 0. *)
Lemma Adapter_minSize_not_200 :
  ¬ (∀ (opts : list (@Option Pf)) (c : @config Pf),
       Forall keepsMinSize opts → Adapter_config opts = inl c → minSize c = 200%Z).
Proof.
  intros Hall.
  specialize (Hall [exampleGzip] _
                (Forall_cons_2 _ _ _ (Compressor_keepsMinSize _ _ _) (Forall_nil_2 _))
                eq_refl).
  discriminate Hall.
Qed.

(** C7, as stated, fails: with all four built-in codings acceptable, the
    order under [PreferServer] does not start with deflate. *)
Lemma builtin_order_not_deflate_first :
  let accept := parseEncodings "deflate, gzip, br, zstd" in
  @orderCandidates Pf PreferServer accept (compressor exampleConfig)
    (acceptedCompression accept (compressor exampleConfig)) ≠
  ["deflate"; "gzip"; "br"; "zstd"].
Proof. vm_compute. discriminate. Qed.

Lemma exampleCloseCount_counts : @countsClose Pf Co exampleCloseCount.
Proof.
  intros g rh a. unfold exampleCloseCount. simpl.
  rewrite List.filter_app, length_app. simpl. lia.
Qed.

Lemma Adapter_without_codings_witness :
  @Adapter_config Pf [exampleMinSize 10] = inl (mkConfig 10 [] false PreferServer ∅) ∧
  ∃ mw, @Adapter Pf Co [exampleMinSize 10] = (Some mw, None) ∧ ∀ h : Handler, mw h = h.
Proof.
  split; [reflexivity|].
  apply (Adapter_without_codings [exampleMinSize 10] (mkConfig 10 [] false PreferServer ∅)).
  - reflexivity.
  - left. reflexivity.
Defined.

Lemma wrapper_closed_once_and_zeroed_witness :
  let s := exampleWorld "gzip;q=0, br" in
  let w := @Underlying Pf true in
  @negotiated Pf Co exampleConfig s ≠ [] ∧
  (serve exampleConfig panickingHandler w s).1 = @Panicked Pf "boom" ∧
  app (serve exampleConfig panickingHandler w s).2 = ["Close"] ∧
  exampleCloseCount (app (serve exampleConfig panickingHandler w s).2) = 1 ∧
  gw (serve exampleConfig panickingHandler w s).2 = compressWriter_zero ∧
  writerPool (serve exampleConfig panickingHandler w s).2 = [compressWriter_zero].
Proof.
  intros s w.
  assert (@negotiated Pf Co exampleConfig s ≠ []) as Hne by (vm_compute; discriminate).
  assert (keepsPool panickingHandler) as Hk by (intros w' s'; reflexivity).
  destruct (wrapper_closed_once_and_zeroed exampleConfig panickingHandler w s Hne Hk
              (Forall_nil_2 _)) as (Ho & Hc & Hn & Hg & Hp & _).
  split; [exact Hne|]. split; [exact Ho|].
  split; [exact (f_equal snd Hc)|].
  split; [exact (Hn exampleCloseCount exampleCloseCount_counts)|].
  split; [exact Hg|exact Hp].
Defined.

Lemma Vary_added_at_most_once_witness :
  (varyCount (∅ : Header) ≤ 1)%nat ∧
  ∀ n, varyCount (Nat.iter (S n) (fun h => addVaryHeader h acceptEncoding) ∅) = 1.
Proof.
  assert (varyCount (∅ : Header) ≤ 1)%nat as Hle by (vm_compute; lia).
  split; [exact Hle|].
  exact (proj1 (proj2 (proj2
           (@Vary_added_at_most_once Pf Co exampleConfig (@Underlying Pf true)
              (exampleWorld "br") ∅))) Hle).
Defined.

Lemma Range_removed_when_negotiated_witness :
  let s := exampleWorld "br" in
  let w := @Underlying Pf false in
  @negotiated Pf Co exampleConfig s ≠ [] ∧
  Header_Get (reqHeader s) _range = "bytes=0-99" ∧
  Header_Get (reqHeader (entered exampleConfig w s).2) _range = EmptyString.
Proof.
  intros s w.
  assert (@negotiated Pf Co exampleConfig s ≠ []) as Hne by (vm_compute; discriminate).
  split; [exact Hne|]. split; [reflexivity|].
  exact (proj1 (proj2 (proj2 (proj2
           (proj1 (Range_removed_when_negotiated exampleConfig exampleHandler w s) Hne))))).
Defined.

Lemma Adapter_fails_atomically_witness :
  @Adapter Pf Co ([exampleGzip] ++ exampleMinSize (-1) :: [exampleMinSize 5]) =
  (None, Some "minimum size can not be negative: -1").
Proof.
  exact (proj1 (Adapter_fails_atomically [exampleGzip] [exampleMinSize 5]
                  (exampleMinSize (-1)) _ _ eq_refl eq_refl)).
Defined.

Lemma minSize_without_MinSize_witness :
  let opts : list (@Option Pf) := [exampleGzip] in
  Forall keepsMinSize opts ∧
  (∀ c, Adapter_config opts = inl c → minSize c = 0%Z) ∧
  (∀ c, DefaultAdapter_config opts = inl c → minSize c = 200%Z).
Proof.
  intros opts.
  assert (Forall keepsMinSize opts) as Hk
    by exact (Forall_cons_2 _ _ _ (Compressor_keepsMinSize _ _ _) (Forall_nil_2 _)).
  split; [exact Hk|]. split; intros c.
  - exact (proj1 (minSize_without_MinSize opts c Hk)).
  - exact (proj2 (minSize_without_MinSize opts c Hk)).
Defined.

Lemma acceptedCompression_sound_witness :
  let accept := parseEncodings "gzip;q=0, br;q=0.5, *;q=0.1" in
  accept !! "gzip" = Some 0%Q ∧
  ¬ In "gzip" (acceptedCompression accept (compressor exampleConfig)).
Proof.
  intros accept.
  assert (accept !! Textproto.lowerString "gzip" = Some 0%Q) as Hq by (vm_compute; reflexivity).
  split; [exact Hq|].
  exact (proj2 (proj2 (proj2 (acceptedCompression_sound accept (compressor exampleConfig))))
           "gzip" 0%Q Hq (Qeq_refl 0)).
Defined.


Lemma DefaultAdapter_defaults_witness :
  @DefaultAdapter_config Pf [] = inl exampleConfig ∧
  @DefaultAdapter Pf Co [] = (Some (serve exampleConfig), None) ∧
  @DefaultAdapter_config Pf [exampleMinSize 1024] = inl (set_minSize 1024 exampleConfig).
Proof.
  destruct (@DefaultAdapter_defaults Pf Co ("deflate", (-1)%Z) ("gzip", (-1)%Z)
              ("br", 3%Z) ("zstd", 3%Z) eq_refl eq_refl eq_refl eq_refl)
    as (Hc & Ha & _ & _ & _ & _ & Hm & _).
  split; [exact Hc|]. split; [exact Ha|]. apply Hm. lia.
Defined.

End Examples.

(** * Further properties of [adapter.go] *)

(** ** Options and the option loop *)
Section OptionFacts.
Context `{Pf : Platform} {Co : @Collaborators Pf}.

Lemma applyOptions_cons_inl (o : Option) (opts : list Option) (c c' : config) :
  applyOptions (o :: opts) c = inl c' →
  (o c).2 = None ∧ applyOptions opts (o c).1 = inl c'.
Proof.
  simpl. destruct (o c) as [c1 [err|]]; [discriminate|]. by intros E.
Qed.

(** X1. The last [MinSize] option decides: when a list of options is
    accepted and no option after [MinSize n] changes the minimum size, the
    configuration has minimum size [n], and [n] is not negative. *)
Theorem MinSize_last_wins (pre post : list Option) (n : Z) (c0 c : config) :
  applyOptions (pre ++ MinSize n :: post) c0 = inl c →
  Forall keepsMinSize post →
  minSize c = n ∧ (0 ≤ n)%Z.
Proof.
  intros E Hpost. rewrite applyOptions_app in E.
  destruct (applyOptions pre c0) as [c1|err]; [|discriminate].
  apply applyOptions_cons_inl in E as [Hn E].
  unfold MinSize in Hn, E. destruct (n <? 0)%Z eqn:Hlt; [discriminate|].
  apply Z.ltb_ge in Hlt. split; [|exact Hlt].
  by rewrite (applyOptions_keeps minSize post Hpost _ _ E).
Qed.

(** X2. Whether [Adapter] fails is decided by the first options alone: an
    error of a list of options is the error of every list that extends it,
    and a list that yields a middleware has only prefixes that yield one. *)
Theorem Adapter_error_of_prefix (pre post : list Option) :
  (∀ e, Adapter pre = (None, Some e) → Adapter (pre ++ post) = (None, Some e)) ∧
  (∀ mw, Adapter (pre ++ post) = (Some mw, None) → ∃ mw', Adapter pre = (Some mw', None)).
Proof.
  unfold Adapter, Adapter_config. rewrite applyOptions_app.
  destruct (applyOptions pre initialConfig) as [c|err]; split.
  - intros e. destruct (Nat.eqb _ 0); discriminate.
  - intros _ _. destruct (Nat.eqb _ 0); eauto.
  - by intros e [= ->].
  - discriminate.
Qed.

(** X3. Server preference is the policy of every middleware whose options
    do not set another one, whether it is built by [Adapter] or by
    [DefaultAdapter]. *)
Theorem prefer_defaults_to_PreferServer (opts : list Option) (c : config) :
  Forall (fun o : Option => ∀ c, prefer (o c).1 = prefer c) opts →
  (Adapter_config opts = inl c → prefer c = PreferServer) ∧
  (DefaultAdapter_config opts = inl c → prefer c = PreferServer).
Proof.
  intros Hk. split.
  - intros E. exact (applyOptions_keeps prefer opts Hk _ _ E).
  - unfold DefaultAdapter_config, Adapter_config. rewrite applyOptions_app.
    destruct (applyOptions defaults initialConfig) as [c0|err] eqn:E0; [|discriminate].
    intros E. rewrite (applyOptions_keeps prefer opts Hk _ _ E).
    revert E0.
    unfold defaults, DeflateCompressionLevel, GzipCompressionLevel,
      BrotliCompressionLevel, defaultZstandardCompressor, NewDefaultGzipCompressor.
    destruct (zlib_New _); [|discriminate].
    destruct (cgzip_New _); [|discriminate].
    destruct (brotli_New _); [|discriminate].
    destruct zstd_New; [|discriminate].
    by intros [= <-].
Qed.

(** X4. [DefaultAdapter] fails when one of its default compressors cannot
    be built, whatever options the caller adds: with the error of the
    deflate, gzip or brotli constructor as it is, and with the error of the
    zstd constructor behind the prefix "initializing zstd compressor: ". *)
Theorem DefaultAdapter_constructor_failure (opts : list Option) (e : error) :
  (zlib_New zlib_DefaultCompression = inr e → DefaultAdapter opts = (None, Some e)) ∧
  (∀ gd, zlib_New zlib_DefaultCompression = inl gd →
         cgzip_New gzip_DefaultCompression = inr e →
         DefaultAdapter opts = (None, Some e)) ∧
  (∀ gd gg, zlib_New zlib_DefaultCompression = inl gd →
            cgzip_New gzip_DefaultCompression = inl gg →
            brotli_New brotli_DefaultCompression = inr e →
            DefaultAdapter opts = (None, Some e)) ∧
  (∀ gd gg gb, zlib_New zlib_DefaultCompression = inl gd →
               cgzip_New gzip_DefaultCompression = inl gg →
               brotli_New brotli_DefaultCompression = inl gb →
               zstd_New = inr e →
               DefaultAdapter opts =
               (None, Some ("initializing zstd compressor: " ++ e))).
Proof.
  unfold DefaultAdapter, Adapter, Adapter_config, defaults, DeflateCompressionLevel,
    GzipCompressionLevel, BrotliCompressionLevel, defaultZstandardCompressor,
    NewDefaultGzipCompressor.
  repeat split.
  - by intros ->.
  - by intros gd -> ->.
  - by intros gd gg -> -> ->.
  - by intros gd gg gb -> -> -> ->.
Qed.

End OptionFacts.

(** ** [addVaryHeader] *)
Section MoreVaryHeader.

Lemma addVaryHeader_lookup_ne (h : Header) value key :
  key ≠ "Vary" → addVaryHeader h value !! key = h !! key.
Proof.
  intros Hk. unfold addVaryHeader, Header_Add.
  destruct (existsb _ _); [reflexivity|].
  change (CanonicalHeaderKey vary) with "Vary". by rewrite lookup_insert_ne.
Qed.

Lemma addVaryHeader_values (h : Header) (value : string) :
  Header_Values (addVaryHeader h value) vary = Header_Values h vary ∨
  Header_Values (addVaryHeader h value) vary =
    (Header_Values h vary ++ [CanonicalHeaderKey value])%list.
Proof.
  destruct (existsb (fun v => String.eqb (CanonicalHeaderKey v) (CanonicalHeaderKey value))
              (Header_Values h vary)) eqn:E.
  - left. by rewrite (addVaryHeader_present _ _ E).
  - right. by rewrite (addVaryHeader_absent _ _ E), Header_Values_Add.
Qed.

(** X5. [addVaryHeader] touches the Vary values only, and only at the end:
    every other key of the header map is as before, the Vary values that
    were there stay in their order, and what is appended, if anything, is
    the value in canonical form. *)
Theorem addVaryHeader_frame (h : Header) (value : string) :
  (∀ key, key ≠ "Vary" → addVaryHeader h value !! key = h !! key) ∧
  (Header_Values (addVaryHeader h value) vary = Header_Values h vary ∨
   Header_Values (addVaryHeader h value) vary =
     (Header_Values h vary ++ [CanonicalHeaderKey value])%list).
Proof.
  split; [intros key; apply addVaryHeader_lookup_ne|apply addVaryHeader_values].
Qed.

(** X6. [addVaryHeader] leaves the header map as it is exactly when one of
    the Vary values has the canonical form of the value. *)
Theorem addVaryHeader_unchanged_iff (h : Header) (value : string) :
  addVaryHeader h value = h ↔
  ∃ v, In v (Header_Values h vary) ∧ CanonicalHeaderKey v = CanonicalHeaderKey value.
Proof.
  split.
  - intros E.
    destruct (existsb (fun v => String.eqb (CanonicalHeaderKey v) (CanonicalHeaderKey value))
                (Header_Values h vary)) eqn:Hex.
    + apply existsb_exists in Hex as (v & Hin & Hv).
      exists v. split; [exact Hin|]. by apply String.eqb_eq.
    + exfalso. rewrite (addVaryHeader_absent _ _ Hex) in E.
      assert (List.length (Header_Values (Header_Add h vary (CanonicalHeaderKey value)) vary)
              = List.length (Header_Values h vary)) as Hlen by (by rewrite E).
      rewrite Header_Values_Add, length_app in Hlen. simpl in Hlen. lia.
  - intros (v & Hin & Hv). apply addVaryHeader_present.
    apply existsb_exists. exists v. split; [exact Hin|]. by apply String.eqb_eq.
Qed.

Lemma CanonicalHeaderKey_token_iff v v' :
  Textproto.allValid v = true →
  (CanonicalHeaderKey v = CanonicalHeaderKey v' ↔
   Textproto.lowerString v = Textproto.lowerString v').
Proof.
  intros Hv. rewrite !CanonicalHeaderKey_spec, Hv. split.
  - destruct (Textproto.allValid v') eqn:Hv'; intros E.
    + by rewrite <- (canonicalize_lower v true), E, canonicalize_lower.
    + exfalso. rewrite <- E, canonicalize_valid in Hv'. congruence.
  - intros E. pose proof (lowerString_valid v') as Hv'.
    rewrite <- E, lowerString_valid, Hv in Hv'. rewrite <- Hv'.
    by rewrite <- (canonicalize_of_lower v), E, canonicalize_of_lower.
Qed.

(** X7. For a header token the duplicate check of [addVaryHeader] is the
    comparison without regard to letter case: once the token has been
    added, a value that is the token up to the case of its letters changes
    nothing, and any other value that no Vary value names yet is appended
    after it. *)
Theorem addVaryHeader_token_case (h : Header) (value value' : string) :
  Textproto.allValid value = true →
  (Textproto.lowerString value = Textproto.lowerString value' →
   addVaryHeader (addVaryHeader h value) value' = addVaryHeader h value) ∧
  (Textproto.lowerString value ≠ Textproto.lowerString value' →
   (∀ v, In v (Header_Values h vary) → CanonicalHeaderKey v ≠ CanonicalHeaderKey value') →
   Header_Values (addVaryHeader (addVaryHeader h value) value') vary =
   (Header_Values (addVaryHeader h value) vary ++ [CanonicalHeaderKey value'])%list).
Proof.
  intros Hv. split.
  - intros E. apply addVaryHeader_again. symmetry.
    by apply CanonicalHeaderKey_token_iff.
  - intros Hne Hfresh.
    assert (existsb (fun v => String.eqb (CanonicalHeaderKey v) (CanonicalHeaderKey value'))
              (Header_Values (addVaryHeader h value) vary) = false) as Hex.
    { apply not_true_is_false. intros Hex.
      apply existsb_exists in Hex as (v & Hin & Heq). apply String.eqb_eq in Heq.
      destruct (addVaryHeader_values h value) as [Hsame|Happ].
      - rewrite Hsame in Hin. by apply (Hfresh v).
      - rewrite Happ in Hin. apply in_app_or in Hin as [Hin|[<-|[]]].
        + by apply (Hfresh v).
        + rewrite CanonicalHeaderKey_idem in Heq.
          by apply Hne, CanonicalHeaderKey_token_iff. }
    by rewrite (addVaryHeader_absent _ _ Hex), Header_Values_Add.
Qed.

End MoreVaryHeader.

(** ** The handler function *)
Section MoreMiddlewareFacts.
Context `{Pf : Platform}.

Section OneMiddleware.
Context {Co : @Collaborators Pf}.



Lemma entered_app (c : config) w s : app (entered c w s).2 = app s.
Proof.
  unfold entered. destruct (Nat.eqb _ 0); [reflexivity|]. cbn [snd].
  unfold acquire. simpl.
  by destruct (Pool_Get (poolDrop s) (poolPick s) (writerPool s)) as [got pool].
Qed.

Lemma serve_accounting (c : config) (h : Handler) w s (count : App → nat) :
  keepsPool h →
  keepsCount count h →
  countsClose count →
  (negotiated c s = [] →
     count (app (serve c h w s).2) = count (app s) ∧
     writerPool (serve c h w s).2 `sublist_of` writerPool s) ∧
  (negotiated c s ≠ [] →
     count (app (serve c h w s).2) = S (count (app s)) ∧
     writerPool (serve c h w s).2 `sublist_of` compressWriter_zero :: writerPool s ∧
     (List.length (writerPool (serve c h w s).2) ≤ S (List.length (writerPool s)))%nat).
Proof.
  intros Hp Hk Hcount. split; intros E.
  - destruct (serve_passthrough c h w s E) as [He ->].
    rewrite Hk, Hp, entered_app, He. done.
  - destruct (serve_wrapped c h w s E) as [He Hs].
    destruct (deferred_effect (h (entered c w s).1 (entered c w s).2).2) as (Dc & _ & Dp & _).
    assert (writerPool (serve c h w s).2 `sublist_of` compressWriter_zero :: writerPool s)
      as Hsub.
    { rewrite Hs. cbn [snd]. rewrite Dp. etrans; [apply Pool_Put_sublist|].
      apply sublist_skip. rewrite Hp, He. cbn [snd].
      rewrite (proj1 (proj2 (proj2 (proj2 (acquire_effect _ _ _))))).
      apply Pool_Get_sublist. }
    split; [|split; [exact Hsub|exact (sublist_length _ _ Hsub)]].
    rewrite Hs. cbn [snd].
    change (app (deferred ?x)) with (respHeader (deferred x), app (deferred x)).2.
    by rewrite Dc, Hcount, Hk, entered_app.
Qed.

(** X10. What one request does to the pool and to the compressors, for a
    handler that reaches neither: without a candidate coding [Close] is not
    called and the pool gets nothing; with one, [Close] is called exactly
    once, and the pool holds afterwards nothing but what it held before and
    one zero wrapper, so it has grown by at most one. [Close] calls are
    counted by whatever every call raises by one. *)
Theorem request_accounting (c : config) (h : Handler) w s (count : App → nat) :
  keepsPool h →
  keepsCount count h →
  countsClose count →
  (negotiated c s = [] →
     count (app (serve c h w s).2) = count (app s) ∧
     writerPool (serve c h w s).2 `sublist_of` writerPool s) ∧
  (negotiated c s ≠ [] →
     count (app (serve c h w s).2) = S (count (app s)) ∧
     writerPool (serve c h w s).2 `sublist_of` compressWriter_zero :: writerPool s ∧
     (List.length (writerPool (serve c h w s).2) ≤ S (List.length (writerPool s)))%nat).
Proof. exact (serve_accounting c h w s count). Qed.

Lemma wantsWrapper_negotiated (c : config) (rh qh : Header) s :
  wantsWrapper c qh = false ↔ negotiated c (set_reqHeader qh (set_respHeader rh s)) = [].
Proof.
  unfold wantsWrapper, negotiated. simpl.
  destruct (acceptedCompression _ _) as [|name common]; simpl; split; done.
Qed.

(** X11. Over any run of requests, [Close] is called exactly once for each
    request that has a candidate coding and not at all for the others, and
    the pool grows by at most one wrapper for each such request. [Close]
    calls are counted by whatever every call raises by one and no handler
    changes. *)
Theorem run_accounting (c : config) (reqs : list (Handler * Writer * Header * Header))
    (count : App → nat) :
  countsClose count →
  Forall (fun q => keepsPool q.1.1.1 ∧ keepsCount count q.1.1.1) reqs →
  ∀ s,
    let k := List.length (List.filter (fun q => wantsWrapper c q.2) reqs) in
    count (app (serveAll c reqs s)) = (count (app s) + k)%nat ∧
    (List.length (writerPool (serveAll c reqs s)) ≤ List.length (writerPool s) + k)%nat.
Proof.
  intros Hcount. induction 1 as [|[[[h w] rh] qh] reqs [Hp Hk] _ IH]; intros s.
  - simpl. lia.
  - simpl in Hp, Hk. simpl serveAll.
    set (s1 := set_reqHeader qh (set_respHeader rh s)).
    destruct (IH (serve c h w s1).2) as [Hc Hl].
    destruct (serve_accounting c h w s1 count Hp Hk Hcount) as [Hpass Hwrap].
    cbn [List.filter snd].
    destruct (wantsWrapper c qh) eqn:Hw.
    + assert (negotiated c s1 ≠ []) as E.
      { intros E. apply (wantsWrapper_negotiated c rh qh s) in E. congruence. }
      destruct (Hwrap E) as (Hc1 & _ & Hl1). cbn [List.length].
      change (app s1) with (app s) in Hc1.
      change (writerPool s1) with (writerPool s) in Hl1. lia.
    + apply (wantsWrapper_negotiated c rh qh s) in Hw.
      destruct (Hpass Hw) as [Hc1 Hl1]. apply sublist_length in Hl1.
      change (app s1) with (app s) in Hc1.
      change (writerPool s1) with (writerPool s) in Hl1. lia.
Qed.

(** X12. Before the handler runs the middleware changes no response header
    but Vary: Content-Encoding, Content-Length, Accept-Ranges and every
    other key are as the server's writer had them. *)
Theorem response_headers_but_Vary_untouched (c : config) w s key :
  key ≠ "Vary" →
  respHeader (entered c w s).2 !! key = respHeader s !! key.
Proof. intros Hk. rewrite entered_respHeader. by apply addVaryHeader_lookup_ne. Qed.

(** X14. The deletion of the Range header is made on the request itself and
    is not undone: after a request with a candidate coding, handled by a
    handler that leaves the request headers alone, the request has no Range
    header any more; without a candidate its headers are as they came. *)
Theorem Range_deletion_outlives_request (c : config) (h : Handler) w s :
  (∀ w' s', reqHeader (h w' s').2 = reqHeader s') →
  (negotiated c s ≠ [] → reqHeader (serve c h w s).2 = Header_Del (reqHeader s) _range) ∧
  (negotiated c s = [] → reqHeader (serve c h w s).2 = reqHeader s).
Proof.
  intros Hh. split; intros E.
  - destruct (serve_wrapped c h w s E) as [He Hs].
    rewrite Hs. cbn [snd].
    rewrite (proj2 (proj2 (proj2 (deferred_effect _)))), Hh, He. cbn [snd].
    by rewrite (proj1 (proj2 (acquire_effect _ _ _))).
  - destruct (serve_passthrough c h w s E) as [He ->]. by rewrite Hh, He.
Qed.

End OneMiddleware.

(** X13. The error [Close] returns is dropped: two wrappers whose [Close]
    differs in the error alone serve every request alike. *)
Theorem Close_error_is_dropped (Co Co' : @Collaborators Pf) :
  (∀ v, @parseEncodings Pf Co v = @parseEncodings Pf Co' v) →
  (∀ a m, @acceptedCompression Pf Co a m = @acceptedCompression Pf Co' a m) →
  (∀ g x, (@compressWriter_Close Pf Co g x).1 = (@compressWriter_Close Pf Co' g x).1) →
  ∀ c h w s, @serve Pf Co c h w s = @serve Pf Co' c h w s.
Proof.
  intros Hparse Hacc Hclose c h w s.
  unfold serve, negotiated, acquire. simpl. rewrite Hparse, Hacc.
  destruct (Nat.eqb _ 0); [reflexivity|].
  destruct (Pool_Get (poolDrop s) (poolPick s) (writerPool s)) as [got pool].
  destruct (h _ _) as [out s']. f_equal.
  unfold deferred, deferred_Close. specialize (Hclose (gw s') (respHeader s', app s')).
  destruct (@compressWriter_Close Pf Co _ _) as [[g [rh a]] e].
  destruct (@compressWriter_Close Pf Co' _ _) as [[g' [rh' a']] e'].
  simpl in Hclose. by injection Hclose as -> -> ->.
Qed.

End MoreMiddlewareFacts.

(** ** The further properties on the example platforms *)
Section MoreExamples.
#[local] Existing Instance examplePlatform.
#[local] Existing Instance exampleCollaborators.

Lemma exampleHandler_keepsPool : keepsPool exampleHandler.
Proof. intros w s. reflexivity. Qed.

Lemma panickingHandler_keepsPool : keepsPool panickingHandler.
Proof. intros w s. reflexivity. Qed.

Lemma exampleHandler_keepsCount : keepsCount exampleCloseCount exampleHandler.
Proof. intros w s. reflexivity. Qed.

Lemma panickingHandler_keepsCount : keepsCount exampleCloseCount panickingHandler.
Proof. intros w s. reflexivity. Qed.

Lemma MinSize_last_wins_witness :
  ∃ c, applyOptions ([exampleMinSize 5; exampleGzip] ++ MinSize 300 :: [exampleGzip])
         initialConfig = inl c ∧ minSize c = 300%Z.
Proof.
  eexists. split; [reflexivity|].
  exact (proj1 (MinSize_last_wins [exampleMinSize 5; exampleGzip] [exampleGzip] 300
                  initialConfig _ eq_refl
                  (Forall_cons_2 _ _ _ (Compressor_keepsMinSize _ _ _) (Forall_nil_2 _)))).
Defined.

Lemma Adapter_error_of_prefix_witness :
  Adapter [exampleGzip; exampleMinSize (-7)] =
    (None, Some "minimum size can not be negative: -7") ∧
  Adapter ([exampleGzip; exampleMinSize (-7)] ++ [exampleMinSize 7]) =
    (None, Some "minimum size can not be negative: -7").
Proof.
  assert (Adapter [exampleGzip; exampleMinSize (-7)] =
          (None, Some "minimum size can not be negative: -7")) as E by reflexivity.
  split; [exact E|].
  exact (proj1 (Adapter_error_of_prefix [exampleGzip; exampleMinSize (-7)]
                  [exampleMinSize 7]) _ E).
Defined.

Lemma prefer_defaults_to_PreferServer_witness :
  ∃ c, DefaultAdapter_config [exampleMinSize 64; exampleGzip] = inl c ∧
       prefer c = PreferServer.
Proof.
  eexists. split; [reflexivity|].
  refine (proj2 (prefer_defaults_to_PreferServer [exampleMinSize 64; exampleGzip] _ _)
            eq_refl).
  repeat constructor; intros c'; unfold exampleMinSize, MinSize; simpl; reflexivity.
Defined.

Lemma DefaultAdapter_constructor_failure_witness :
  @DefaultAdapter brokenZstdPlatform brokenZstdCollaborators
    [@MinSize brokenZstdPlatform 10] =
  (None, Some "initializing zstd compressor: out of memory").
Proof.
  exact (proj2 (proj2 (proj2
           (@DefaultAdapter_constructor_failure brokenZstdPlatform brokenZstdCollaborators
              [@MinSize brokenZstdPlatform 10] "out of memory")))
           ("deflate", (-1)%Z) ("gzip", (-1)%Z) ("br", 3%Z)
           eq_refl eq_refl eq_refl eq_refl).
Defined.

Lemma addVaryHeader_frame_witness :
  let h : Header := Header_Add (Header_Add ∅ vary "Origin") contentType "text/html" in
  addVaryHeader h acceptEncoding !! "Content-Type" = Some ["text/html"] ∧
  Header_Values (addVaryHeader h acceptEncoding) vary = ["Origin"; "Accept-Encoding"].
Proof.
  intros h. split.
  - rewrite (proj1 (addVaryHeader_frame h acceptEncoding) "Content-Type");
      [reflexivity|discriminate].
  - vm_compute. reflexivity.
Defined.

Lemma addVaryHeader_token_case_witness :
  Textproto.allValid "accept-encoding" = true ∧
  addVaryHeader (addVaryHeader exampleTwiceVary "accept-encoding") "ACCEPT-Encoding" =
  addVaryHeader exampleTwiceVary "accept-encoding" ∧
  Header_Values (addVaryHeader (addVaryHeader ∅ "accept-encoding") "origin") vary =
  ["Accept-Encoding"; "Origin"].
Proof.
  assert (Textproto.allValid "accept-encoding" = true) as Hv by reflexivity.
  split; [exact Hv|]. split.
  - exact (proj1 (addVaryHeader_token_case exampleTwiceVary "accept-encoding"
                    "ACCEPT-Encoding" Hv) eq_refl).
  - refine (proj2 (addVaryHeader_token_case ∅ "accept-encoding" "origin" Hv) _ _).
    + vm_compute. discriminate.
    + intros v [].
Defined.



Lemma request_accounting_witness :
  let s := exampleWorld "br" in
  negotiated exampleConfig s ≠ [] ∧
  exampleCloseCount (app (serve exampleConfig panickingHandler (@Underlying examplePlatform true) s).2) = 1 ∧
  (List.length (writerPool (serve exampleConfig panickingHandler (@Underlying examplePlatform true) s).2)
   ≤ 1)%nat.
Proof.
  intros s.
  assert (negotiated exampleConfig s ≠ []) as Hne by (vm_compute; discriminate).
  destruct (proj2 (@request_accounting examplePlatform exampleCollaborators exampleConfig panickingHandler (@Underlying examplePlatform true) s
                     exampleCloseCount panickingHandler_keepsPool
                     panickingHandler_keepsCount exampleCloseCount_counts) Hne)
    as (Hc & _ & Hl).
  split; [exact Hne|]. split; [exact Hc|exact Hl].
Defined.

Lemma run_accounting_witness :
  let reqs := [(exampleHandler, Underlying true, (∅ : Header),
                 Header_Add ∅ acceptEncoding "br");
               (panickingHandler, Underlying false, (∅ : Header),
                 Header_Add ∅ acceptEncoding "gzip;q=0")] in
  let s := exampleWorld "" in
  exampleCloseCount (app (serveAll exampleConfig reqs s)) = 1 ∧
  (List.length (writerPool (serveAll exampleConfig reqs s)) ≤ 1)%nat.
Proof.
  intros reqs s.
  refine (run_accounting exampleConfig reqs exampleCloseCount
            exampleCloseCount_counts _ s).
  constructor; [exact (conj exampleHandler_keepsPool exampleHandler_keepsCount)|].
  constructor; [exact (conj panickingHandler_keepsPool panickingHandler_keepsCount)|].
  constructor.
Defined.

Lemma response_headers_but_Vary_untouched_witness :
  let s := set_respHeader (Header_Add ∅ contentLength "512") (exampleWorld "br") in
  respHeader (entered exampleConfig (@Underlying examplePlatform true) s).2 !! "Content-Length" =
    Some ["512"] ∧
  respHeader (entered exampleConfig (@Underlying examplePlatform true) s).2 !! "Content-Encoding" = None.
Proof.
  intros s. split.
  - rewrite (response_headers_but_Vary_untouched exampleConfig (@Underlying examplePlatform true) s
               "Content-Length"); [reflexivity|discriminate].
  - rewrite (response_headers_but_Vary_untouched exampleConfig (@Underlying examplePlatform true) s
               "Content-Encoding"); [reflexivity|discriminate].
Defined.

Lemma Close_error_is_dropped_witness :
  @serve examplePlatform exampleCollaborators exampleConfig exampleHandler
    (@Underlying examplePlatform true) (exampleWorld "br") =
  @serve examplePlatform failingCloseCollaborators exampleConfig exampleHandler
    (@Underlying examplePlatform true) (exampleWorld "br").
Proof.
  apply (Close_error_is_dropped exampleCollaborators failingCloseCollaborators).
  - intros v. reflexivity.
  - intros a m. reflexivity.
  - intros g [rh a]. reflexivity.
Defined.

Lemma Range_deletion_outlives_request_witness :
  let s := exampleWorld "br" in
  negotiated exampleConfig s ≠ [] ∧
  Header_Get (reqHeader s) _range = "bytes=0-99" ∧
  Header_Get (reqHeader (serve exampleConfig exampleHandler (@Underlying examplePlatform true) s).2) _range
    = EmptyString.
Proof.
  intros s.
  assert (negotiated exampleConfig s ≠ []) as Hne by (vm_compute; discriminate).
  split; [exact Hne|]. split; [reflexivity|].
  rewrite (proj1 (Range_deletion_outlives_request exampleConfig exampleHandler
                    (@Underlying examplePlatform true) s (fun w' s' => eq_refl)) Hne).
  reflexivity.
Defined.

End MoreExamples.
